(** * VISOR: tracking pipeline and job registry

    A shallow embedding of the orchestration core of the VISOR backend:
    - [app/services/video_processor.py]: IoU, greedy track assignment, the
      frame loop of [process_video] and the per-track enrichment
      [_process_tracked_object];
    - [app/api/process.py]: the in-memory job registry
      ([start_processing], [get_processing_status], [get_tracking_data],
      [process_video_task] with its two callbacks);
    - [app/services/grounding_dino_service.py]: the non-maximum
      suppression that [detect_products] applies to the detections, and
      its IoU.

    Numbers.  Python [int] is [Z].  Python [float] is modelled by exact
    rationals [Q]: every arithmetic expression of the source is kept as
    written, but evaluated without rounding error.  Float equality is
    [Qeq] ([==]).  Division raises [ZeroDivisionError] on a zero divisor,
    as in Python.

    Collaborators (detector, segmenter, product search) are opaque and
    fallible: they are fields of the [VideoProcessor] record, they may
    raise, and their answer may depend on the history of calls. *)

From Stdlib Require Import QArith Qround Qabs Lqa Sorted.
From stdpp Require Import gmap strings list fin_maps pretty.

Open Scope Z_scope.

(** ** Python numerics *)

Module Py.

(** [a < b] on floats. *)
Definition lt (a b : Q) : bool := negb (Qle_bool b a).

(** [max(a, b)]: the first argument is kept unless the second is
    strictly greater. *)
Definition max (a b : Q) : Q := if lt a b then b else a.

(** [min(a, b)]: the first argument is kept unless the second is
    strictly smaller. *)
Definition min (a b : Q) : Q := if lt b a then b else a.

(** [int(q)]: truncation toward zero. *)
Definition int (q : Q) : Z := Z.quot (Qnum q) (Zpos (Qden q)).

(** [round(q)] with one argument: nearest integer, ties to even.  The
    source never calls it; it is here to state what the specification
    says about sampling. *)
Definition round (q : Q) : Z :=
  let f := Qfloor q in
  let r := (q - inject_Z f)%Q in
  match (r ?= 1 # 2)%Q with
  | Lt => f
  | Gt => f + 1
  | Eq => if Z.even f then f else f + 1
  end.

End Py.

(** ** Bounding boxes and IoU ([video_processor.py], lines 61-85) *)

Record BBox := mkBBox { x : Q; y : Q; width : Q; height : Q }.

Definition _calculate_iou (box1 box2 : BBox) : Q :=
  let x1_min := x box1 in
  let y1_min := y box1 in
  let x1_max := (x1_min + width box1)%Q in
  let y1_max := (y1_min + height box1)%Q in
  let x2_min := x box2 in
  let y2_min := y box2 in
  let x2_max := (x2_min + width box2)%Q in
  let y2_max := (y2_min + height box2)%Q in
  let inter_x_min := Py.max x1_min x2_min in
  let inter_y_min := Py.max y1_min y2_min in
  let inter_x_max := Py.min x1_max x2_max in
  let inter_y_max := Py.min y1_max y2_max in
  if Py.lt inter_x_max inter_x_min || Py.lt inter_y_max inter_y_min then 0%Q
  else
    let inter_area :=
      ((inter_x_max - inter_x_min) * (inter_y_max - inter_y_min))%Q in
    let box1_area := (width box1 * height box1)%Q in
    let box2_area := (width box2 * height box2)%Q in
    let union_area := (box1_area + box2_area - inter_area)%Q in
    if Py.lt 0 union_area then (inter_area / union_area)%Q else 0%Q.

(** *** Areas, for stating what IoU computes *)

Definition box_area (b : BBox) : Q := (width b * height b)%Q.

(** Signed length of the overlap of the intervals [[lo1, lo1 + len1]] and
    [[lo2, lo2 + len2]]; negative when they are apart. *)
Definition overlap (lo1 len1 lo2 len2 : Q) : Q :=
  (Py.min (lo1 + len1) (lo2 + len2) - Py.max lo1 lo2)%Q.

Definition intersection_area (a b : BBox) : Q :=
  (overlap (x a) (width a) (x b) (width b)
   * overlap (y a) (height a) (y b) (height b))%Q.

Definition union_area (a b : BBox) : Q :=
  (box_area a + box_area b - intersection_area a b)%Q.


(** ** Detections and the tracker ([video_processor.py], lines 87-125)

    A detection is the dict built by the detector: [bbox], [label],
    [confidence].  [_assign_track_ids] sets the key ['track_id'] on each
    current detection; a dict that carries the key is a [Tracked]. *)

Record Detection := mkDetection {
  bbox : BBox;
  label : string;
  confidence : Q
}.

Record Tracked := mkTracked {
  det : Detection;
  track_id : Z
}.

(** Minimum IoU threshold, the literal [0.3] of line 100. *)
Definition IOU_THRESHOLD : Q := 3 # 10.

(** First branch (lines 89-94): no previous detections, every detection
    gets a new id. *)
Fixpoint assign_new (current_detections : list Detection) (next_track_id : Z)
  : list Tracked * Z :=
  match current_detections with
  | [] => ([], next_track_id)
  | detection :: rest =>
      let (out, n) := assign_new rest (next_track_id + 1) in
      (mkTracked detection next_track_id :: out, n)
  end.

(** Inner loop (lines 103-115) over [previous_detections], threading
    [best_iou] and [best_match]. *)
Fixpoint best_match_loop (curr_det : Detection) (matched : gset Z)
    (previous_detections : list Tracked)
    (best_iou : Q) (best_match : option Tracked) : Q * option Tracked :=
  match previous_detections with
  | [] => (best_iou, best_match)
  | prev_det :: rest =>
      if decide (track_id prev_det ∈ matched) then
        best_match_loop curr_det matched rest best_iou best_match
      else if negb (String.eqb (label curr_det) (label (det prev_det))) then
        best_match_loop curr_det matched rest best_iou best_match
      else
        let iou := _calculate_iou (bbox curr_det) (bbox (det prev_det)) in
        if Py.lt best_iou iou then
          best_match_loop curr_det matched rest iou (Some prev_det)
        else
          best_match_loop curr_det matched rest best_iou best_match
  end.

(** Outer loop (lines 99-123) over [current_detections], threading
    [matched] and [next_track_id]. *)
Fixpoint match_loop (current_detections : list Detection)
    (previous_detections : list Tracked)
    (matched : gset Z) (next_track_id : Z) : list Tracked * Z :=
  match current_detections with
  | [] => ([], next_track_id)
  | curr_det :: rest =>
      match snd (best_match_loop curr_det matched previous_detections
                   IOU_THRESHOLD None) with
      | Some best_match =>
          let (out, n) :=
            match_loop rest previous_detections
              ({[track_id best_match]} ∪ matched) next_track_id in
          (mkTracked curr_det (track_id best_match) :: out, n)
      | None =>
          let (out, n) :=
            match_loop rest previous_detections matched (next_track_id + 1) in
          (mkTracked curr_det next_track_id :: out, n)
      end
  end.

Definition _assign_track_ids (current_detections : list Detection)
    (previous_detections : list Tracked) (next_track_id : Z)
  : list Tracked * Z :=
  match previous_detections with
  | [] => assign_new current_detections next_track_id
  | _ :: _ => match_loop current_detections previous_detections ∅ next_track_id
  end.

(** *** The matching rule, stated declaratively

    These definitions follow the words of the specification and are what
    [_assign_track_ids] is compared with. *)

(** IoU of a current detection with a previous track. *)
Definition iou_with (d : Detection) (p : Tracked) : Q :=
  _calculate_iou (bbox d) (bbox (det p)).

(** Previous tracks not yet matched in this call and sharing the label,
    in iteration order. *)
Definition candidates (d : Detection) (matched : gset Z)
    (previous_tracks : list Tracked) : list Tracked :=
  filter (λ p, (track_id p ∉ matched) ∧ (label (det p) = label d))
    previous_tracks.

(** [p] is the earliest candidate of maximum IoU. *)
Definition first_max (d : Detection) (cands : list Tracked) (p : Tracked)
  : Prop :=
  ∃ k : nat,
    cands !! k = Some p ∧
    (∀ q, q ∈ cands → (iou_with d q <= iou_with d p)%Q) ∧
    (∀ (j : nat) q, (j < k)%nat → cands !! j = Some q →
       (iou_with d q < iou_with d p)%Q).

(** One detection: reuse the id of the best candidate when its IoU
    exceeds the threshold and consume it, else take a fresh id. *)
Inductive match_step (previous_tracks : list Tracked)
  : gset Z → Z → Detection → Tracked → gset Z → Z → Prop :=
| step_reuse matched n d p :
    first_max d (candidates d matched previous_tracks) p →
    (IOU_THRESHOLD < iou_with d p)%Q →
    match_step previous_tracks matched n d
      (mkTracked d (track_id p)) ({[track_id p]} ∪ matched) n
| step_fresh matched n d :
    (∀ q, q ∈ candidates d matched previous_tracks →
       (iou_with d q <= IOU_THRESHOLD)%Q) →
    match_step previous_tracks matched n d (mkTracked d n) matched (n + 1).

(** All detections of one update call, in input order. *)
Inductive match_run (previous_tracks : list Tracked)
  : gset Z → Z → list Detection → list Tracked → gset Z → Z → Prop :=
| run_nil matched n :
    match_run previous_tracks matched n [] [] matched n
| run_cons matched n d ds t matched1 n1 ts matched2 n2 :
    match_step previous_tracks matched n d t matched1 n1 →
    match_run previous_tracks matched1 n1 ds ts matched2 n2 →
    match_run previous_tracks matched n (d :: ds) (t :: ts) matched2 n2.

(** What the inner loop knows after the candidates [seen]: either no
    candidate so far is above the threshold, or [best_match] is the
    earliest one of maximum IoU and [best_iou] is its IoU. *)
Definition best_so_far (d : Detection) (seen : list Tracked) (best_iou : Q)
    (best_match : option Tracked) : Prop :=
  match best_match with
  | None =>
      best_iou = IOU_THRESHOLD ∧
      ∀ q, q ∈ seen → (iou_with d q <= IOU_THRESHOLD)%Q
  | Some p =>
      best_iou = iou_with d p ∧ (IOU_THRESHOLD < iou_with d p)%Q ∧
      first_max d seen p
  end.

(** ** Frame sampling ([video_processor.py], lines 155, 169, 194, 205) *)

Inductive exn :=
| ZeroDivisionError (msg : string)
| KeyError (msg : string)
| HTTPException (status_code : Z) (detail : string)
| Exception (msg : string).

(** [str(e)] *)
Definition str (e : exn) : string :=
  match e with
  | ZeroDivisionError msg | KeyError msg | Exception msg => msg
  | HTTPException _ detail => detail
  end.

Inductive result (A : Type) :=
| Return (a : A)
| Raise (e : exn).
Arguments Return {A} a.
Arguments Raise {A} e.

(** [sample_rate = max(1, int(fps / 2))] *)
Definition sample_rate (fps : Q) : Z := Z.max 1 (Py.int (fps / 2)).

(** [frame_num % sample_rate == 0] *)
Definition is_sampled (fps : Q) (frame_num : Z) : bool :=
  frame_num mod sample_rate fps =? 0.

(** [int((frame_num / fps) * 1000)], where [frame_num / fps] is a float
    division. *)
Definition timestamp_ms (frame_num : Z) (fps : Q) : result Z :=
  if Qeq_bool fps 0 then Raise (ZeroDivisionError "float division by zero")
  else Return (Py.int ((inject_Z frame_num / fps) * 1000)).

(** [(frame_num / total_frames) * 100], a true division of two ints. *)
Definition progress_percent (frame_num total_frames : Z) : result Q :=
  if total_frames =? 0 then Raise (ZeroDivisionError "division by zero")
  else Return ((inject_Z frame_num / inject_Z total_frames) * 100)%Q.

(** *** The sampling rule as the specification words it *)




(** ** Data carried by the pipeline *)

(** [app/schemas/product.py] *)
Module Product.
Record t := mk {
  product_id : string;
  title : string;
  brand : string;
  price : Q;
  currency : string;
  image_url : string;
  buy_url : string;
  category : string;
  confidence : Q
}.
End Product.

(** What [segment_with_box] returns. *)
Module MaskResult.
Record t := mk { bbox : BBox; mask_url : string; confidence : Q }.
End MaskResult.

(** What [_process_tracked_object] returns; the fallback dict has no
    ['mask_url'] key. *)
Module ProductInfo.
Record t := mk {
  track_id : Z;
  category : string;
  detection_method : string;
  mask_url : option string;
  product : option Product.t
}.
End ProductInfo.

(** One entry of [frame_detections] (lines 183-188). *)
Module FrameDetection.
Record t := mk {
  track_id : Z;
  bbox : BBox;
  class : string;
  confidence : Q
}.
End FrameDetection.

(** [output_data] (lines 226-232), the content of the tracking file. *)
Module Artifact.
Record t := mk {
  video_id : string;
  fps : Q;
  total_frames : Z;
  tracks_by_frame : gmap Z (list FrameDetection.t);
  object_products : gmap Z ProductInfo.t
}.
End Artifact.

(** One value of the module-level dict [processing_status]. *)
Module Status.
Record t := mk {
  status : string;
  progress : Q;
  message : string;
  logs : list string
}.
End Status.

(** What [get_processing_status] returns. *)
Module ProcessStatusResponse.
Record t := mk {
  video_id : string;
  status : string;
  progress : Q;
  message : string;
  logs : list string
}.
End ProcessStatusResponse.

(** What [start_processing] returns. *)
Inductive StartResponse :=
| AlreadyProcessing (message : string) (status : Status.t)
| Started (message : string) (video_id : string).

(** Observable steps of a run, in the order they happen.  The trace is
    not a variable of the source: it records which collaborator was called
    and what the tracker produced, so that statements can count calls. *)
Inductive Event :=
| EvDetect (frame_num : Z)
| EvTrack (frame_num : Z) (detections : list Tracked)
| EvEnrich (frame_num : Z) (track_id : Z)
| EvSegment (video_id : string) (bbox : BBox) (timestamp_ms : Z)
| EvSearch (category : string) (top_k : Z).

(** [settings.STORAGE_PATH] ([app/core/config.py]) *)
Definition STORAGE_PATH : string := "./data".

(** [os.path.join(settings.STORAGE_PATH, 'tracking', f'{video_id}_tracking.json')] *)
Definition tracking_path (video_id : string) : string :=
  STORAGE_PATH +:+ "/tracking/" +:+ video_id +:+ "_tracking.json".

(** [os.path.join(videos_dir, f"{video_id}{ext}")] *)
Definition video_file (video_id ext : string) : string :=
  STORAGE_PATH +:+ "/videos/" +:+ video_id +:+ ext.

Definition VIDEO_EXTENSIONS : list string :=
  [".mp4"; ".mov"; ".avi"; ".webm"; ".mkv"].

(** ** The world: video files, collaborators, registry, storage *)

Section Pipeline.

(** A decoded image; the core never looks inside. *)
Context {Frame : Type}.

(** What [cv2.VideoCapture(path)] gives: whether the source opened, the
    two properties read by [process_video], and the frames that
    successive [cap.read()] calls return before [ret] becomes false. *)
Record VideoCapture := mkVideoCapture {
  isOpened : bool;
  CAP_PROP_FPS : Q;
  CAP_PROP_FRAME_COUNT : Q;
  frames : list Frame
}.

(** The three services held by a [VideoProcessor] instance, each given
    the trace so far:
    - [grounding_dino] is [detect_products(frame)];
    - [segmentation_service] stands for lines 251-281 of
      [_process_tracked_object]: writing the temporary frame,
      [segment_with_box(temp_frame_path, bbox, video_id, timestamp_ms)],
      and copying the mask, all inside the same [try];
    - [product_search] is [search_products(category, top_k)]. *)
Record VideoProcessor := mkVideoProcessor {
  grounding_dino : list Event → Frame → result (list Detection);
  segmentation_service :
    list Event → Frame → BBox → string → Z → result MaskResult.t;
  product_search : list Event → string → Z → result (list Product.t)
}.

Record World := mkWorld {
  (** the module-level dict of [process.py] *)
  processing_status : gmap string Status.t;
  (** files on disk, by path: tracking files with their JSON content *)
  tracking_files : gmap string Artifact.t;
  (** files on disk, by path: uploaded videos *)
  video_files : gmap string VideoCapture;
  (** tasks handed to [background_tasks.add_task], oldest first *)
  background_tasks : list (string * string);
  trace : list Event
}.

Definition set_processing_status (f : gmap string Status.t → gmap string Status.t)
    (w : World) : World :=
  mkWorld (f (processing_status w)) (tracking_files w) (video_files w)
    (background_tasks w) (trace w).

Definition set_tracking_files (f : gmap string Artifact.t → gmap string Artifact.t)
    (w : World) : World :=
  mkWorld (processing_status w) (f (tracking_files w)) (video_files w)
    (background_tasks w) (trace w).

Definition set_background_tasks
    (f : list (string * string) → list (string * string)) (w : World) : World :=
  mkWorld (processing_status w) (tracking_files w) (video_files w)
    (f (background_tasks w)) (trace w).

Definition set_trace (f : list Event → list Event) (w : World) : World :=
  mkWorld (processing_status w) (tracking_files w) (video_files w)
    (background_tasks w) (f (trace w)).

(** *** Computations that change the world and may raise

    An exception keeps the changes made before it was raised. *)
Definition M (A : Type) : Type := World → result A * World.

Global Instance M_ret : MRet M := λ A a w, (Return a, w).

Global Instance M_bind : MBind M := λ A B k m w,
  match m w with
  | (Return a, w') => k a w'
  | (Raise e, w') => (Raise e, w')
  end.

Definition raise {A} (e : exn) : M A := λ w, (Raise e, w).

Definition lift {A} (r : result A) : M A := λ w, (r, w).

(** [try: body  except Exception as e: handler(e)] *)
Definition try_except {A} (body : M A) (handler : exn → M A) : M A := λ w,
  match body w with
  | (Return a, w') => (Return a, w')
  | (Raise e, w') => handler e w'
  end.

Definition get : M World := λ w, (Return w, w).

Definition modify (f : World → World) : M unit := λ w, (Return tt, f w).

Definition emit (ev : Event) : M unit := modify (set_trace (λ t, t ++ [ev])).

(** Call a collaborator: it answers from the trace so far, and the call
    is appended to the trace whether it returns or raises. *)
Definition invoke {A} (ev : Event) (f : list Event → result A) : M A := λ w,
  (f (trace w), set_trace (λ t, t ++ [ev]) w).

(** [if callback: await callback(arg)] *)
Definition when_set {A} (callback : option (A → M unit)) (arg : A) : M unit :=
  match callback with
  | Some cb => cb arg
  | None => mret tt
  end.

(** *** [_process_tracked_object] (lines 243-304) *)

Definition mask_filename (track_id timestamp_ms : Z) : string :=
  "track_" +:+ pretty track_id +:+ "_frame_" +:+ pretty timestamp_ms +:+ ".png".

Definition _process_tracked_object (self : VideoProcessor) (frame : Frame)
    (detection : Tracked) (track_id : Z) (video_id : string)
    (timestamp_ms : Z) : M ProductInfo.t :=
  try_except
    (let category := label (det detection) in
     let bbox := bbox (det detection) in
     mask_result ← invoke (EvSegment video_id bbox timestamp_ms)
       (λ h, segmentation_service self h frame bbox video_id timestamp_ms);
     products ← invoke (EvSearch category 1)
       (λ h, product_search self h category 1);
     let product := head products in
     mret (ProductInfo.mk track_id category "owlvit_sam"
             (Some ("/static/masks/" +:+ video_id +:+ "/"
                      +:+ mask_filename track_id timestamp_ms))
             product))
    (λ e,
     let category := label (det detection) in
     products ← invoke (EvSearch category 1)
       (λ h, product_search self h category 1);
     let product := head products in
     mret (ProductInfo.mk track_id category "owlvit" None product)).

(** *** [process_video] (lines 127-241) *)

(** The [for detection in detections] loop (lines 180-202), threading
    [frame_detections] and [object_products]. *)
Fixpoint detection_loop (self : VideoProcessor) (video_id : string)
    (log_callback : option (string → M unit))
    (frame : Frame) (frame_num : Z) (fps : Q)
    (detections : list Tracked)
    (frame_detections : list FrameDetection.t)
    (object_products : gmap Z ProductInfo.t)
  : M (list FrameDetection.t * gmap Z ProductInfo.t) :=
  match detections with
  | [] => mret (frame_detections, object_products)
  | detection :: rest =>
      let track_id := track_id detection in
      let frame_detection :=
        FrameDetection.mk track_id
          (bbox (det detection))
          (label (det detection))
          (confidence (det detection)) in
      let frame_detections := frame_detections ++ [frame_detection] in
      object_products ←
        match object_products !! track_id with
        | Some _ => mret object_products
        | None =>
            timestamp_ms ← lift (timestamp_ms frame_num fps);
            emit (EvEnrich frame_num track_id);;
            product_info ← _process_tracked_object self frame detection
                              track_id video_id timestamp_ms;
            let object_products := <[track_id := product_info]> object_products in
            let log_msg :=
              "Track " +:+ pretty track_id +:+ ": "
                +:+ label (det detection)
                +:+ " [OWL-ViT + SAM] -> " +:+ ProductInfo.category product_info in
            when_set log_callback log_msg;;
            mret object_products
        end;
      detection_loop self video_id log_callback frame frame_num fps rest
        frame_detections object_products
  end.

(** The local variables that the [while] loop updates. *)
Record Locals := mkLocals {
  tracks_by_frame : gmap Z (list FrameDetection.t);
  object_products : gmap Z ProductInfo.t;
  frame_num : Z;
  processed_frames : Z;
  next_track_id : Z;
  previous_detections : list Tracked
}.

(** The body of [if frame_num % sample_rate == 0:] (lines 170-217). *)
Definition analyze_frame (self : VideoProcessor) (video_id : string)
    (progress_callback : option (Q * string → M unit))
    (log_callback : option (string → M unit))
    (fps : Q) (total_frames : Z) (frame : Frame) (st : Locals) : M Locals :=
  detections ← invoke (EvDetect (frame_num st))
    (λ h, grounding_dino self h frame);
  let '(detections, next_track_id) :=
    _assign_track_ids detections (previous_detections st) (next_track_id st) in
  emit (EvTrack (frame_num st) detections);;
  '(frame_detections, object_products) ←
    detection_loop self video_id log_callback frame (frame_num st) fps
      detections [] (object_products st);
  timestamp_ms ← lift (timestamp_ms (frame_num st) fps);
  let tracks_by_frame := <[timestamp_ms := frame_detections]> (tracks_by_frame st) in
  let previous_detections := detections in
  let processed_frames := processed_frames st + 1 in
  match progress_callback with
  | Some cb =>
      progress ← lift (progress_percent (frame_num st) total_frames);
      let message :=
        "Processing frame " +:+ pretty (frame_num st) +:+ "/"
          +:+ pretty total_frames +:+ " - Found "
          +:+ pretty (length detections) +:+ " objects" in
      cb (progress, message)
  | None => mret tt
  end;;
  mret (mkLocals tracks_by_frame object_products (frame_num st)
          processed_frames next_track_id previous_detections).

(** The [while cap.isOpened()] loop (lines 163-219), one iteration for
    each frame that [cap.read()] returns. *)
Fixpoint frame_loop (self : VideoProcessor) (video_id : string)
    (progress_callback : option (Q * string → M unit))
    (log_callback : option (string → M unit))
    (fps : Q) (total_frames : Z) (frames : list Frame) (st : Locals)
  : M Locals :=
  match frames with
  | [] => mret st
  | frame :: rest =>
      st ← (if is_sampled fps (frame_num st) then
              analyze_frame self video_id progress_callback log_callback
                fps total_frames frame st
            else mret st);
      frame_loop self video_id progress_callback log_callback fps
        total_frames rest
        (mkLocals (tracks_by_frame st) (object_products st)
           (frame_num st + 1) (processed_frames st) (next_track_id st)
           (previous_detections st))
  end.

(** [cv2.VideoCapture(video_path)]: a path that holds no video, or a
    video that cannot be decoded, gives a capture that is not opened;
    the constructor does not raise. *)
Definition closed_capture : VideoCapture := mkVideoCapture false 0 0 [].

Definition cv2_VideoCapture (video_path : string) : M VideoCapture := λ w,
  (Return (default closed_capture (video_files w !! video_path)), w).

(** Frames delivered to the loop: none when [cap.isOpened()] is false. *)
Definition frames_read (cap : VideoCapture) : list Frame :=
  if isOpened cap then frames cap else [].

Definition process_video (self : VideoProcessor) (video_id video_path : string)
    (progress_callback : option (Q * string → M unit))
    (log_callback : option (string → M unit)) : M Artifact.t :=
  when_set log_callback ("Starting video processing for " +:+ video_id);;
  when_set log_callback
    "Using OWL-ViT (zero-shot detection) + SAM (segmentation) + IoU tracking";;
  cap ← cv2_VideoCapture video_path;
  let fps := CAP_PROP_FPS cap in
  let total_frames := Py.int (CAP_PROP_FRAME_COUNT cap) in
  st ← frame_loop self video_id progress_callback log_callback fps
         total_frames (frames_read cap) (mkLocals ∅ ∅ 0 0 1 []);
  let output_data :=
    Artifact.mk video_id fps total_frames (tracks_by_frame st)
      (object_products st) in
  modify (set_tracking_files (insert (tracking_path video_id) output_data));;
  mret output_data.

(** ** The job registry ([app/api/process.py]) *)

(** [processing_status[video_id] = f(processing_status[video_id])];
    subscripting a missing key raises [KeyError]. *)
Definition update_status (video_id : string) (f : Status.t → Status.t) : M unit :=
  λ w,
    match processing_status w !! video_id with
    | Some s => (Return tt, set_processing_status (insert video_id (f s)) w)
    | None => (Raise (KeyError ("'" +:+ video_id +:+ "'")), w)
    end.

(** [f"{progress:.1f}"] *)
Definition format_1f (q : Q) : string :=
  let tenths := Py.round (Qabs q * 10) in
  (if Py.lt q 0 then "-" else "")
    +:+ pretty (tenths / 10) +:+ "." +:+ pretty (tenths mod 10).

(** [update_progress] (lines 113-118) *)
Definition update_progress (video_id : string) (args : Q * string) : M unit :=
  let '(progress, message) := args in
  update_status video_id (λ s,
    Status.mk (Status.status s) progress
      (if decide (message = "") then
         "Processing... " +:+ format_1f progress +:+ "%"
       else message)
      (Status.logs s)).

(** Lines 123-126 on the list itself: [logs.append(message)], then
    [logs = logs[-50:]] when [len(logs) > 50]. *)
Definition append_log (logs : list string) (message : string) : list string :=
  let logs := logs ++ [message] in
  if (50 <? length logs)%nat then drop (length logs - 50) logs else logs.

(** [log_message] (lines 120-126); a record always has the key
    ["logs"], so line 121 never fires. *)
Definition log_message (video_id : string) (message : string) : M unit :=
  update_status video_id (λ s,
    Status.mk (Status.status s) (Status.progress s) (Status.message s)
      (append_log (Status.logs s) message)).

(** [process_video_task] (lines 106-143) *)
Definition process_video_task (self : VideoProcessor)
    (video_id video_path : string) : M unit :=
  try_except
    (update_status video_id (λ s, s);;
     process_video self video_id video_path
       (Some (update_progress video_id)) (Some (log_message video_id));;
     update_status video_id (λ s,
       Status.mk "completed" 100 "Video processing completed successfully"
         (Status.logs s)))
    (λ e,
     update_status video_id (λ s,
       Status.mk "failed" 0 ("Processing failed: " +:+ str e)
         (Status.logs s))).

(** Lines 33-39: the first extension for which the file exists. *)
Fixpoint find_video (files : gmap string VideoCapture) (video_id : string)
    (exts : list string) : option string :=
  match exts with
  | [] => None
  | ext :: rest =>
      let potential_path := video_file video_id ext in
      match files !! potential_path with
      | Some _ => Some potential_path
      | None => find_video files video_id rest
      end
  end.

(** The record written at lines 51-56. *)
Definition fresh_status : Status.t :=
  Status.mk "processing" 0 "Starting video processing..." [].

(** Lines 45-48: the record of a run in progress, if there is one. *)
Definition already_processing (registry : gmap string Status.t)
    (video_id : string) : option Status.t :=
  match registry !! video_id with
  | Some status =>
      if decide (Status.status status = "processing") then Some status
      else None
  | None => None
  end.

(** [start_processing] (lines 28-64) *)
Definition start_processing (video_id : string) : M StartResponse :=
  w ← get;
  match find_video (video_files w) video_id VIDEO_EXTENSIONS with
  | None => raise (HTTPException 404 "Video not found")
  | Some video_path =>
      match already_processing (processing_status w) video_id with
      | Some status =>
          mret (AlreadyProcessing "Video is already being processed" status)
      | None =>
          modify (set_processing_status (insert video_id fresh_status));;
          modify (set_background_tasks (λ q, q ++ [(video_id, video_path)]));;
          mret (Started "Video processing started" video_id)
      end
  end.

(** [get_processing_status] (lines 66-90) *)
Definition get_processing_status (video_id : string)
  : M ProcessStatusResponse.t :=
  w ← get;
  match processing_status w !! video_id with
  | None =>
      match tracking_files w !! tracking_path video_id with
      | Some _ =>
          mret (ProcessStatusResponse.mk video_id "completed" 100
                  "Video processing completed" [])
      | None =>
          raise (HTTPException 404 "Video not found or not processed")
      end
  | Some status =>
      mret (ProcessStatusResponse.mk video_id (Status.status status)
              (Status.progress status) (Status.message status)
              (Status.logs status))
  end.

(** [get_tracking_data] (lines 92-104) *)
Definition get_tracking_data (video_id : string) : M Artifact.t :=
  w ← get;
  match tracking_files w !! tracking_path video_id with
  | None =>
      raise (HTTPException 404
               "Tracking data not found. Video may not be processed yet.")
  | Some data => mret data
  end.

(** *** Pre- and postconditions

    [wp m w Q E]: run from [w], [m] either returns [a] in a world with
    [Q a], or raises [e] in a world with [E e]. *)
Definition wp {A} (m : M A) (w : World) (Q : A → World → Prop)
    (E : exn → World → Prop) : Prop :=
  match m w with
  | (Return a, w') => Q a w'
  | (Raise e, w') => E e w'
  end.

(** A callback that makes no collaborator call. *)
Definition silent {A} (callback : option (A → M unit)) : Prop :=
  ∀ cb, callback = Some cb → ∀ a w, trace (cb a w).2 = trace w.

End Pipeline.

Arguments VideoCapture : clear implicits.
Arguments VideoProcessor : clear implicits.
Arguments World : clear implicits.
Arguments M : clear implicits.

(** ** Reading a trace *)

(** The calls of [_process_tracked_object], as (frame number, track id). *)
Definition enriched_at (T : list Event) : list (Z * Z) :=
  omap (λ ev, match ev with EvEnrich f t => Some (f, t) | _ => None end) T.

(** The tracker outputs, as (frame number, track ids of the frame). *)
Definition produced_at (T : list Event) : list (Z * list Z) :=
  omap (λ ev, match ev with
              | EvTrack f ds => Some (f, track_id <$> ds)
              | _ => None
              end) T.

(** The frame of the earliest tracker output that contains [t]. *)
Fixpoint first_frame (t : Z) (P : list (Z * list Z)) : option Z :=
  match P with
  | [] => None
  | (f, ids) :: rest =>
      if decide (t ∈ ids) then Some f else first_frame t rest
  end.

Definition is_EvSegment (ev : Event) : bool :=
  match ev with EvSegment _ _ _ => true | _ => false end.

Definition is_EvSearch (ev : Event) : bool :=
  match ev with EvSearch _ _ => true | _ => false end.

(** Number of calls to the segmenter, and to the product search. *)
Definition segment_calls (T : list Event) : nat :=
  length (filter (λ ev, is_EvSegment ev = true) T).

Definition search_calls (T : list Event) : nat :=
  length (filter (λ ev, is_EvSearch ev = true) T).

(** The frames on which the detector was called. *)
Definition detected_at (T : list Event) : list Z :=
  omap (λ ev, match ev with EvDetect f => Some f | _ => None end) T.

(** ** Vocabulary for the statements about runs *)

(** The enrichment calls in [T] are for distinct tracks, each at the
    frame where its track first came out of the tracker. *)
Definition enrich_ok (T : list Event) : Prop :=
  NoDup (enriched_at T).*2 ∧
  ∀ f t, (f, t) ∈ enriched_at T → first_frame t (produced_at T) = Some f.

(** As [enrich_ok], and every track that came out of the tracker before
    its last output has been enriched. *)
Definition aborted_ok (T : list Event) : Prop :=
  enrich_ok T ∧
  ∀ t, is_Some (first_frame t (removelast (produced_at T))) →
       t ∈ (enriched_at T).*2.

(** The enrichment index holds exactly the tracks enriched in [T]. *)
Definition indexed (T : list Event) (op : gmap Z ProductInfo.t) : Prop :=
  ∀ t, t ∈ (enriched_at T).*2 ↔ is_Some (op !! t).

(** Every track of the tracker outputs [P] is in the index. *)
Definition all_indexed (P : list (Z * list Z)) (op : gmap Z ProductInfo.t) : Prop :=
  ∀ t, is_Some (first_frame t P) → is_Some (op !! t).



Section Statements.

Context {Frame : Type}.
Implicit Types (w : World Frame) (self : VideoProcessor Frame).

(** The two lines logged before the video is opened. *)
Definition opening_logs (video_id : string) (logs : list string) : list string :=
  append_log
    (append_log logs ("Starting video processing for " +:+ video_id))
    "Using OWL-ViT (zero-shot detection) + SAM (segmentation) + IoU tracking".

(** The record of a job after the two opening log lines. *)
Definition opened_status (video_id : string) (s : Status.t) : Status.t :=
  Status.mk (Status.status s) (Status.progress s) (Status.message s)
    (opening_logs video_id (Status.logs s)).

(** The job has a record in the registry. *)
Definition registered (video_id : string) w : Prop :=
  is_Some (processing_status w !! video_id).

(** Only the registry differs. *)
Definition registry_only w w' : Prop :=
  trace w' = trace w ∧ tracking_files w' = tracking_files w ∧
  video_files w' = video_files w.

(** Only the trace differs. *)
Definition trace_only w w' : Prop :=
  processing_status w' = processing_status w ∧
  tracking_files w' = tracking_files w ∧
  video_files w' = video_files w.

(** Same enrichment calls and tracker outputs. *)
Definition quiet w w' : Prop :=
  enriched_at (trace w') = enriched_at (trace w) ∧
  produced_at (trace w') = produced_at (trace w).

(** The body of a job run: [process_video] with the two callbacks of
    [process_video_task]. *)
Definition job_run self (video_id video_path : string) : M Frame Artifact.t :=
  process_video self video_id video_path
    (Some (update_progress video_id)) (Some (log_message video_id)).

(** What a run that cannot get past its first frame raises. *)
Definition first_frame_error self w (frame : Frame) : exn :=
  match grounding_dino self (trace w) frame with
  | Raise e => e
  | Return _ => ZeroDivisionError "float division by zero"
  end.

(** The detector, respectively the product search, never raises. *)
Definition detector_total self : Prop :=
  ∀ h frame, ∃ ds, grounding_dino self h frame = Return ds.

Definition search_total self : Prop :=
  ∀ h category top_k, ∃ ps, product_search self h category top_k = Return ps.

(** The state at the head of the loop over the detections of frame
    [f], whose tracker output has the ids [ids]; [dets] is what is left
    to do. *)
Definition detection_inv (P : list (Z * list Z)) (f : Z) (ids : list Z)
    (dets : list Tracked) (op : gmap Z ProductInfo.t) w : Prop :=
  enrich_ok (trace w) ∧ indexed (trace w) op ∧
  produced_at (trace w) = P ++ [(f, ids)] ∧ all_indexed P op ∧
  (∀ t, t ∈ track_id <$> dets → t ∈ ids) ∧
  (∀ t, t ∈ ids → t ∉ track_id <$> dets → is_Some (op !! t)).

(** The state between two frames. *)
Definition frame_inv (op : gmap Z ProductInfo.t) w : Prop :=
  enrich_ok (trace w) ∧ indexed (trace w) op ∧
  all_indexed (produced_at (trace w)) op.

End Statements.

(** ** A small world for examples: one uploaded video, frames numbered *)

Definition example_capture : VideoCapture nat :=
  mkVideoCapture true 10 20 (seq 0 20).

Definition example_world (cap : VideoCapture nat) : World nat :=
  mkWorld ∅ ∅ {[ video_file "v" ".mp4" := cap ]} [] [].

(** The same world after [start_processing "v"]. *)
Definition example_started (cap : VideoCapture nat) : World nat :=
  mkWorld {[ "v" := fresh_status ]} ∅ {[ video_file "v" ".mp4" := cap ]}
    [("v", video_file "v" ".mp4")] [].

Definition cup : Detection := mkDetection (mkBBox 0 0 10 10) "cup" (9 # 10).

(** Collaborators that always answer: one cup per frame, a mask, no
    product. *)
Definition example_processor : VideoProcessor nat :=
  mkVideoProcessor
    (λ _ _, Return [cup])
    (λ _ _ b _ _, Return (MaskResult.mk b "/static/crops/v_0_mask.png" 1))
    (λ _ _ _, Return []).

(** A source that does not open, and one that reports 0 fps. *)
Definition unopened_capture : VideoCapture nat := mkVideoCapture false 0 0 [].

Definition zero_fps_capture : VideoCapture nat :=
  mkVideoCapture true 0 20 (seq 0 20).

(** A detector that is down. *)
Definition failing_detector : VideoProcessor nat :=
  mkVideoProcessor
    (λ _ _, Raise (Exception "detector down"))
    (λ _ _ b _ _, Return (MaskResult.mk b "/static/crops/v_0_mask.png" 1))
    (λ _ _ _, Return []).

(** A segmenter that is down. *)
Definition failing_segmenter : VideoProcessor nat :=
  mkVideoProcessor
    (λ _ _, Return [cup])
    (λ _ _ _ _ _, Raise (Exception "segmenter down"))
    (λ _ _ _, Return []).

(** A product search that is down. *)
Definition failing_search : VideoProcessor nat :=
  mkVideoProcessor
    (λ _ _, Return [cup])
    (λ _ _ b _ _, Return (MaskResult.mk b "/static/crops/v_0_mask.png" 1))
    (λ _ _ _, Raise (Exception "search down")).

(** Tracks and detections for the examples of the tracker. *)
Definition cup_track5 : Tracked := mkTracked cup 5.

(** The cup, lower by half: IoU 1/2 with [cup]. *)
Definition cup_moved : Detection := mkDetection (mkBBox 0 0 10 5) "cup" (8 # 10).

(** IoU 3/10 with [cup], which is not above the threshold. *)
Definition cup_far : Detection := mkDetection (mkBBox 0 0 10 3) "cup" (8 # 10).

(** Another label in the box of [cup]. *)
Definition bottle : Detection := mkDetection (mkBBox 0 0 10 10) "bottle" (9 # 10).

(** The world after the job of video ["v"] has run on [cap] with the
    processor [vp], and the run of [process_video] inside the job of
    the example. *)
Definition example_job (vp : VideoProcessor nat) (cap : VideoCapture nat)
  : World nat :=
  (process_video_task vp "v" (video_file "v" ".mp4") (example_started cap)).2.

Definition example_run : result Artifact.t * World nat :=
  job_run example_processor "v" (video_file "v" ".mp4")
    (example_started example_capture).

(** ** Track ids over a whole run *)

(** The tracker outputs [P] of a run, oldest first, obey the id
    discipline with last output [last] and counter [n]: the ids of an
    output are pairwise distinct, and each one is either an id of the
    output just before or a fresh id taken from the counter. *)
Inductive id_discipline : list (Z * list Z) → list Z → Z → Prop :=
| discipline_start : id_discipline [] [] 1
| discipline_next P last n f ids n' :
    id_discipline P last n →
    n ≤ n' → NoDup ids →
    (∀ t, t ∈ ids → t ∈ last ∨ n ≤ t < n') →
    id_discipline (P ++ [(f, ids)]) ids n'.

(** The ids of the last tracker output, none before the first. *)
Definition last_output (P : list (Z * list Z)) : list Z :=
  default [] (snd <$> last P).

(** Events of the loop over the detections of one frame: enrichment and
    the two collaborators it calls. *)
Definition inner_event (ev : Event) : Prop :=
  match ev with
  | EvEnrich _ _ | EvSegment _ _ _ | EvSearch _ _ => True
  | EvDetect _ | EvTrack _ _ => False
  end.

Section MoreStatements.

Context {Frame : Type}.
Implicit Types (w : World Frame) (self : VideoProcessor Frame).

(** [w'] has the trace of [w] followed by events of the inner loop. *)
Definition extends_inner w w' : Prop :=
  ∃ evs, trace w' = trace w ++ evs ∧ Forall inner_event evs.

(** The tracker state between two frames agrees with the outputs so
    far. *)
Definition discipline_inv (st : Locals) w : Prop :=
  id_discipline (produced_at (trace w))
    (track_id <$> previous_detections st) (next_track_id st).

(** What one iteration of the frame loop does to the local variables
    besides analyzing the frame. *)
Definition next_frame (st : Locals) : Locals :=
  mkLocals (tracks_by_frame st) (object_products st) (frame_num st + 1)
    (processed_frames st) (next_track_id st) (previous_detections st).

(** What a job on [video_id] started in [w] may have changed when it
    is in [w']: the trace, and the record of [video_id], which is there
    with at most 50 log lines. *)
Definition job_frame (video_id : string) w w' : Prop :=
  (∃ s, processing_status w' !! video_id = Some s ∧
        (length (Status.logs s) ≤ 50)%nat) ∧
  (∀ other, other ≠ video_id →
     processing_status w' !! other = processing_status w !! other) ∧
  tracking_files w' = tracking_files w ∧
  video_files w' = video_files w ∧
  background_tasks w' = background_tasks w.

(** The record a job ends with (lines 132-134 and 138-143), from the
    outcome of the run and the record [s] it found. *)
Definition final_status (outcome : result Artifact.t) (s : Status.t)
  : Status.t :=
  match outcome with
  | Return _ =>
      Status.mk "completed" 100 "Video processing completed successfully"
        (Status.logs s)
  | Raise e =>
      Status.mk "failed" 0 ("Processing failed: " +:+ str e) (Status.logs s)
  end.

(** The registry after the process has been restarted: the dict is
    empty again, the files are still there. *)
Definition restarted w : World Frame :=
  set_processing_status (λ _, ∅) w.

(** Every task handed to [background_tasks.add_task] is for a video
    that has a record. *)
Definition queue_ok w : Prop :=
  ∀ video_id video_path, (video_id, video_path) ∈ background_tasks w →
    registered video_id w.

(** One step of the service: a request to one of the three endpoints, or
    the run of a task that has been queued. *)
Inductive api_step self : World Frame → World Frame → Prop :=
| step_start video_id w :
    api_step self w (start_processing video_id w).2
| step_status video_id w :
    api_step self w (get_processing_status video_id w).2
| step_tracking video_id w :
    api_step self w (get_tracking_data video_id w).2
| step_task video_id video_path w :
    (video_id, video_path) ∈ background_tasks w →
    api_step self w (process_video_task self video_id video_path w).2.

End MoreStatements.

(** ** What the tracking file holds *)

(** One of the two dicts [_process_tracked_object] returns (lines
    287-293 and 299-304), for track [t] and label [category]: with a
    mask when the segmenter answered, without one otherwise. *)
Definition product_info_for (t : Z) (category : string)
    (pi : ProductInfo.t) : Prop :=
  ProductInfo.track_id pi = t ∧ ProductInfo.category pi = category ∧
  ((ProductInfo.detection_method pi = "owlvit_sam" ∧
    is_Some (ProductInfo.mask_url pi)) ∨
   (ProductInfo.detection_method pi = "owlvit" ∧
    ProductInfo.mask_url pi = None)).

(** The index [op] holds the product info of the track of [fd], under
    the class of [fd]. *)
Definition covered (op : gmap Z ProductInfo.t) (fd : FrameDetection.t)
  : Prop :=
  ∃ pi, op !! FrameDetection.track_id fd = Some pi ∧
        product_info_for (FrameDetection.track_id fd)
          (FrameDetection.class fd) pi.

(** The entry of [frame_detections] made for a tracked detection
    (lines 183-188). *)
Definition frame_detection_of (detection : Tracked) : FrameDetection.t :=
  FrameDetection.mk (track_id detection) (bbox (det detection))
    (label (det detection)) (confidence (det detection)).

(** The local variables between two frames, as far as the tracking
    file is concerned. *)
Definition locals_inv (st : Locals) : Prop :=
  1 ≤ next_track_id st ∧
  (∀ ts fds, tracks_by_frame st !! ts = Some fds →
     NoDup (FrameDetection.track_id <$> fds) ∧
     ∀ fd, fd ∈ fds → covered (object_products st) fd) ∧
  (∀ p, p ∈ previous_detections st →
     covered (object_products st) (frame_detection_of p)) ∧
  (∀ t pi, object_products st !! t = Some pi →
     ProductInfo.track_id pi = t ∧ 1 ≤ t < next_track_id st) ∧
  (∀ t, 1 ≤ t < next_track_id st → is_Some (object_products st !! t)).


(** The collaborator calls in [T] are within the budget of the
    enrichments in [T]: one call of the segmenter for each, and one or
    two calls of the product search. *)
Definition budget_ok (T : list Event) : Prop :=
  segment_calls T = length (enriched_at T) ∧
  (length (enriched_at T) ≤ search_calls T ≤ 2 * length (enriched_at T))%nat.

(** ** The detector's non-maximum suppression
       ([app/services/grounding_dino_service.py], lines 122-187) *)

Module GroundingDINOService.

(** [_calculate_iou] of the detector (lines 156-187): as the tracker's,
    except for the last test, [union == 0]. *)
Definition _calculate_iou (bbox1 bbox2 : BBox) : Q :=
  let x1_min := x bbox1 in
  let y1_min := y bbox1 in
  let x1_max := (x bbox1 + width bbox1)%Q in
  let y1_max := (y bbox1 + height bbox1)%Q in
  let x2_min := x bbox2 in
  let y2_min := y bbox2 in
  let x2_max := (x bbox2 + width bbox2)%Q in
  let y2_max := (y bbox2 + height bbox2)%Q in
  let x_inter_min := Py.max x1_min x2_min in
  let y_inter_min := Py.max y1_min y2_min in
  let x_inter_max := Py.min x1_max x2_max in
  let y_inter_max := Py.min y1_max y2_max in
  if Py.lt x_inter_max x_inter_min || Py.lt y_inter_max y_inter_min then 0%Q
  else
    let intersection :=
      ((x_inter_max - x_inter_min) * (y_inter_max - y_inter_min))%Q in
    let area1 := (width bbox1 * height bbox1)%Q in
    let area2 := (width bbox2 * height bbox2)%Q in
    let union := (area1 + area2 - intersection)%Q in
    if Qeq_bool union 0 then 0%Q else (intersection / union)%Q.

(** [sorted(detections, key=lambda x: x['confidence'], reverse=True)]:
    the stable sort by decreasing confidence, written as an insertion
    sort.  A detection goes before the first one whose confidence is not
    greater than its own. *)
Fixpoint insert_by_confidence (det : Detection) (sorted : list Detection)
  : list Detection :=
  match sorted with
  | [] => [det]
  | other :: rest =>
      if Py.lt (confidence det) (confidence other)
      then other :: insert_by_confidence det rest
      else det :: other :: rest
  end.

Definition sorted_by_confidence (detections : list Detection) : list Detection :=
  foldr insert_by_confidence [] detections.

(** The literal [0.25] of line 145. *)
Definition GOOD_CONFIDENCE : Q := 25 # 100.

(** The inner loop over [keep] (lines 139-151): the value of
    [should_keep] when it ends. *)
Fixpoint should_keep (det : Detection) (keep : list Detection)
    (iou_threshold : Q) : bool :=
  match keep with
  | [] => true
  | kept_det :: rest =>
      let iou := _calculate_iou (bbox det) (bbox kept_det) in
      if Py.lt iou_threshold iou then
        if negb (String.eqb (label det) (label kept_det))
           && Py.lt GOOD_CONFIDENCE (confidence det)
        then should_keep det rest iou_threshold
        else false
      else should_keep det rest iou_threshold
  end.

(** The outer loop (lines 135-152), threading [keep]. *)
Fixpoint nms_loop (detections keep : list Detection) (iou_threshold : Q)
  : list Detection :=
  match detections with
  | [] => keep
  | det :: rest =>
      nms_loop rest
        (if should_keep det keep iou_threshold then keep ++ [det] else keep)
        iou_threshold
  end.

Definition _apply_nms (detections : list Detection) (iou_threshold : Q)
  : list Detection :=
  if (length detections =? 0)%nat then detections
  else nms_loop (sorted_by_confidence detections) [] iou_threshold.

(** The default [iou_threshold], which [detect_products] also passes. *)
Definition NMS_THRESHOLD : Q := 1 # 2.

(** *** Vocabulary for the statements about suppression *)

(** [det] may stay next to the kept detection [kept]: the boxes do not
    overlap above the threshold, or the labels differ and [det] has a
    good confidence. *)
Definition compatible (iou_threshold : Q) (det kept : Detection) : Prop :=
  (_calculate_iou (bbox det) (bbox kept) <= iou_threshold)%Q ∨
  (label det ≠ label kept ∧ (GOOD_CONFIDENCE < confidence det)%Q).

(** Decreasing confidence. *)
Definition by_confidence (a b : Detection) : Prop :=
  (confidence b <= confidence a)%Q.

(** Every detection of [out] is compatible with all those before it. *)
Definition separated (iou_threshold : Q) (out : list Detection) : Prop :=
  ∀ pre det post, out = pre ++ det :: post →
    ∀ kept, kept ∈ pre → compatible iou_threshold det kept.

End GroundingDINOService.

(** *** Examples *)

(** A second, weaker detection of the cup, shifted by one: IoU 9/11 with
    [cup]. *)
Definition cup_again : Detection :=
  mkDetection (mkBBox 1 0 10 10) "cup" (6 # 10).


(** A video uploaded twice, as [.mov] and as [.avi], and not started. *)
Definition two_files_world : World nat :=
  mkWorld ∅ ∅
    {[ video_file "v" ".avi" := example_capture;
       video_file "v" ".mov" := example_capture ]} [] [].

(** A source that reports no frame count and still delivers frames. *)
Definition uncounted_capture : VideoCapture nat :=
  mkVideoCapture true 10 0 (seq 0 20).

(** * Theorems *)

(** ** Python numerics *)

Module PyFacts.

Lemma lt_spec a b : reflect (a < b)%Q (Py.lt a b).
Proof.
  unfold Py.lt. destruct (Qle_bool b a) eqn:E; simpl; constructor.
  - apply Qle_bool_iff in E. lra.
  - intros. assert (¬ (b <= a)%Q) by (rewrite <- Qle_bool_iff; congruence). lra.
Qed.



End PyFacts.











(** ** The tracker *)

Section Tracker.

Variable d : Detection.

Lemma best_so_far_bound seen best_iou best_match q :
  best_so_far d seen best_iou best_match → q ∈ seen →
  (IOU_THRESHOLD <= best_iou ∧ iou_with d q <= best_iou)%Q.
Proof.
  destruct best_match as [p|]; simpl.
  - intros (-> & Hp & k & _ & Hmax & _) Hq. split; [lra | by apply Hmax].
  - intros (-> & Hall) Hq. split; [lra | by apply Hall].
Qed.

Lemma best_so_far_threshold seen best_iou best_match :
  best_so_far d seen best_iou best_match → (IOU_THRESHOLD <= best_iou)%Q.
Proof.
  destruct best_match as [p|]; simpl.
  - intros (-> & Hp & _). lra.
  - intros (-> & _). lra.
Qed.

Lemma best_so_far_skip seen best_iou best_match p0 :
  best_so_far d seen best_iou best_match →
  (iou_with d p0 <= best_iou)%Q →
  best_so_far d (seen ++ [p0]) best_iou best_match.
Proof.
  destruct best_match as [p|]; simpl.
  - intros (-> & Hp & k & Hk & Hmax & Hbefore) Hle.
    split; [done|]. split; [done|]. exists k. split; [|split].
    + by apply lookup_app_l_Some.
    + intros q [Hq|Hq%list_elem_of_singleton]%elem_of_app; [by apply Hmax | by subst].
    + intros j q Hj Hq. apply (Hbefore j); [done|].
      apply lookup_lt_Some in Hk.
      rewrite lookup_app_l in Hq by lia. done.
  - intros (-> & Hall) Hle. split; [done|].
    intros q [Hq|Hq%list_elem_of_singleton]%elem_of_app; [by apply Hall | by subst].
Qed.

Lemma best_so_far_take seen best_iou best_match p0 :
  best_so_far d seen best_iou best_match →
  (best_iou < iou_with d p0)%Q →
  best_so_far d (seen ++ [p0]) (iou_with d p0) (Some p0).
Proof.
  intros Hinv Hlt. simpl. split; [done|]. split.
  - pose proof (best_so_far_threshold _ _ _ Hinv). lra.
  - exists (length seen). split; [|split].
    + by rewrite lookup_app_r, Nat.sub_diag by lia.
    + intros q [Hq|Hq%list_elem_of_singleton]%elem_of_app.
      * destruct (best_so_far_bound _ _ _ q Hinv Hq). lra.
      * subst. lra.
    + intros j q Hj Hq. rewrite lookup_app_l in Hq by lia.
      apply list_elem_of_lookup_2 in Hq.
      destruct (best_so_far_bound _ _ _ q Hinv Hq). lra.
Qed.

Lemma candidates_cons matched p rest :
  candidates d matched (p :: rest) =
  if decide (track_id p ∈ matched) then candidates d matched rest
  else if negb (String.eqb (label d) (label (det p))) then candidates d matched rest
  else p :: candidates d matched rest.
Proof.
  unfold candidates. rewrite filter_cons.
  destruct (decide (track_id p ∈ matched)) as [Hin|Hin].
  - rewrite decide_False; [done|]. intros [? _]. done.
  - destruct (String.eqb_spec (label d) (label (det p))) as [Heq|Hne]; simpl.
    + by rewrite decide_True.
    + rewrite decide_False; [done|]. intros [_ ?]. congruence.
Qed.

Lemma best_match_loop_inv matched rest : ∀ seen best_iou best_match,
  best_so_far d (candidates d matched seen) best_iou best_match →
  best_so_far d (candidates d matched (seen ++ rest))
    (best_match_loop d matched rest best_iou best_match).1
    (best_match_loop d matched rest best_iou best_match).2.
Proof.
  induction rest as [|p rest IH]; intros seen best_iou best_match Hinv.
  - by rewrite app_nil_r.
  - replace (seen ++ p :: rest) with ((seen ++ [p]) ++ rest)
      by by rewrite <- app_assoc.
    assert (Hc : candidates d matched (seen ++ [p])
                 = candidates d matched seen ++ candidates d matched [p]).
    { unfold candidates. by rewrite filter_app. }
    rewrite candidates_cons in Hc. simpl.
    destruct (decide (track_id p ∈ matched)).
    { apply IH. rewrite Hc. by rewrite app_nil_r. }
    destruct (negb (String.eqb (label d) (label (det p)))).
    { apply IH. rewrite Hc. by rewrite app_nil_r. }
    fold (iou_with d p).
    destruct (PyFacts.lt_spec best_iou (iou_with d p)) as [Hlt|Hge].
    + apply IH. rewrite Hc. by apply (best_so_far_take _ best_iou best_match).
    + apply IH. rewrite Hc. apply best_so_far_skip; [done | lra].
Qed.

Lemma best_match_loop_spec matched previous :
  best_so_far d (candidates d matched previous) 
    (best_match_loop d matched previous IOU_THRESHOLD None).1
    (best_match_loop d matched previous IOU_THRESHOLD None).2.
Proof.
  apply (best_match_loop_inv matched previous []).
  simpl. split; [done|]. intros q Hq. by apply elem_of_nil in Hq.
Qed.

End Tracker.

Lemma match_loop_run previous : ∀ current matched n,
  ∃ matched',
    match_run previous matched n current
      (match_loop current previous matched n).1 matched'
      (match_loop current previous matched n).2.
Proof.
  induction current as [|d ds IH]; intros matched n; simpl.
  - eexists. constructor.
  - pose proof (best_match_loop_spec d matched previous) as Hbest.
    destruct (best_match_loop d matched previous IOU_THRESHOLD None).2
      as [p|] eqn:E; simpl in *.
    + destruct Hbest as (_ & Hp & Hfirst).
      destruct (IH ({[track_id p]} ∪ matched) n) as [m' Hrun].
      destruct (match_loop ds previous ({[track_id p]} ∪ matched) n)
        as [out n'] eqn:E'. simpl in *.
      exists m'. econstructor; [|exact Hrun]. by constructor.
    + destruct Hbest as (_ & Hall).
      destruct (IH matched (n + 1)) as [m' Hrun].
      destruct (match_loop ds previous matched (n + 1)) as [out n'] eqn:E'.
      simpl in *. exists m'. econstructor; [|exact Hrun]. by constructor.
Qed.

Lemma first_max_elem d cands p : first_max d cands p → p ∈ cands.
Proof. intros (k & Hk & _). by eapply list_elem_of_lookup_2. Qed.

Lemma elem_of_candidates d matched previous p :
  p ∈ candidates d matched previous ↔
  p ∈ previous ∧ (track_id p ∉ matched) ∧ label (det p) = label d.
Proof. unfold candidates. rewrite list_elem_of_filter. tauto. Qed.

(** Ids given in one call: a reused id is an unmatched previous id that
    becomes matched, a fresh id comes from the counter. *)
Lemma match_run_ids previous bound matched n ds ts matched' n' :
  match_run previous matched n ds ts matched' n' →
  (∀ p, p ∈ previous → track_id p < bound) → bound ≤ n →
  n ≤ n' ∧ matched ⊆ matched' ∧ NoDup (track_id <$> ts) ∧
  ∀ t, t ∈ track_id <$> ts →
       (t < bound ∧ (t ∉ matched) ∧ t ∈ matched') ∨ (n ≤ t < n').
Proof.
  intros Hrun Hprev. induction Hrun as [|matched n d ds t m1 n1 ts m2 n2 Hstep Hrun IH];
    intros Hn.
  - repeat split; [lia | done | constructor |]. intros t Ht. by apply elem_of_nil in Ht.
  - inversion Hstep as [? ? ? p Hfirst Hiou | ? ? ? Hall]; subst.
    + destruct (IH Hn) as (Hle & Hsub & Hnd & Hids).
      apply first_max_elem, elem_of_candidates in Hfirst as (Hin & Hnm & _).
      assert (Hp : track_id p ∈ ({[track_id p]} ∪ matched : gset Z)).
      { apply elem_of_union. left. by apply elem_of_singleton. }
      split_and!.
      * lia.
      * intros i Hi. apply Hsub, elem_of_union. by right.
      * simpl. constructor; [|done]. intros Ht.
        destruct (Hids _ Ht) as [(_ & Hnot & _)|Hfresh]; [done|].
        specialize (Hprev _ Hin). lia.
      * intros t [->|Ht]%elem_of_cons.
        -- left. simpl. split_and!; [by apply Hprev | done | by apply Hsub].
        -- destruct (Hids _ Ht) as [(? & Hnot & ?)|?]; [left | by right].
           split_and!; [done | | done].
           intros Hi. apply Hnot, elem_of_union. by right.
    + destruct (IH ltac:(lia)) as (Hle & Hsub & Hnd & Hids).
      split_and!.
      * lia.
      * done.
      * simpl. constructor; [|done]. intros Ht.
        destruct (Hids _ Ht) as [(? & _)|?]; lia.
      * intros t [->|Ht]%elem_of_cons.
        -- right. simpl. lia.
        -- destruct (Hids _ Ht) as [?|?]; [by left | right; lia].
Qed.






(** No previous tracks: ids 1 and 2 in input order, the counter becomes 3. *)
Example tracker_first_frame :
  _assign_track_ids [cup; bottle] [] 1 = ([mkTracked cup 1; mkTracked bottle 2], 3).
Proof. reflexivity. Qed.

(** IoU 1/2 with the previous cup: its id 5 is reused. *)
Example tracker_reuses_id :
  _assign_track_ids [cup_moved] [cup_track5] 6 = ([mkTracked cup_moved 5], 6).
Proof. by vm_compute. Qed.

(** Same box, other label: a new id. *)
Example tracker_label_mismatch :
  _assign_track_ids [bottle] [cup_track5] 6 = ([mkTracked bottle 6], 7).
Proof. by vm_compute. Qed.

(** IoU exactly 3/10 is not enough. *)
Example tracker_threshold_strict :
  (_calculate_iou (bbox cup_far) (bbox cup) == 3 # 10)%Q ∧
  _assign_track_ids [cup_far] [cup_track5] 6 = ([mkTracked cup_far 6], 7).
Proof. by vm_compute. Qed.

(** Two previous tracks with the same IoU: the earlier one is taken, and
    a second detection then gets the other one. *)
Example tracker_tie_earliest :
  _assign_track_ids [cup; cup] [mkTracked cup 1; mkTracked cup 2] 3
  = ([mkTracked cup 1; mkTracked cup 2], 3).
Proof. by vm_compute. Qed.

(** ** The bounded log *)

Lemma append_log_short (logs : list string) (m : string) :
  (length logs < 50)%nat → append_log logs m = logs ++ [m].
Proof.
  intros H. unfold append_log.
  destruct (Nat.ltb_spec 50 (length (logs ++ [m]))) as [Hl|Hl]; [|done].
  rewrite length_app in Hl. simpl in Hl. lia.
Qed.

Lemma append_log_suffix (logs : list string) (m : string) :
  append_log logs m = drop (length (logs ++ [m]) - 50) (logs ++ [m]).
Proof.
  unfold append_log.
  destruct (Nat.ltb_spec 50 (length (logs ++ [m]))) as [Hl|Hl]; [done|].
  replace (length (logs ++ [m]) - 50)%nat with 0%nat by lia. done.
Qed.

Lemma append_log_length (logs : list string) (m : string) :
  (length (append_log logs m) ≤ 50)%nat.
Proof. rewrite append_log_suffix, length_drop. lia. Qed.

Lemma append_log_full (logs : list string) (m : string) :
  length logs = 50%nat → append_log logs m = tail logs ++ [m].
Proof.
  intros H. rewrite append_log_suffix, length_app. simpl.
  replace (length logs + 1 - 50)%nat with 1%nat by lia.
  destruct logs as [|l logs]; [done|]. done.
Qed.

Section Registry.

Context {Frame : Type}.
Implicit Types (w : World Frame) (video_id : string) (s : Status.t).

Lemma update_status_present w video_id s f :
  processing_status w !! video_id = Some s →
  update_status video_id f w
  = (Return (), set_processing_status (insert video_id (f s)) w).
Proof. intros H. unfold update_status. by rewrite H. Qed.

(** C7. [log_message] appends the line and keeps the most recent 50
    entries: the log never holds more than 50 lines, a log with fewer
    than 50 lines just grows, and on a full log the oldest line is
    dropped while the others keep their order. *)
Theorem log_bounded_fifo w video_id s (line : string) :
  processing_status w !! video_id = Some s →
  ∃ w',
    log_message video_id line w = (Return (), w') ∧
    processing_status w' !! video_id
    = Some (Status.mk (Status.status s) (Status.progress s) (Status.message s)
              (append_log (Status.logs s) line)) ∧
    append_log (Status.logs s) line
    = drop (length (Status.logs s ++ [line]) - 50) (Status.logs s ++ [line]) ∧
    (length (append_log (Status.logs s) line) ≤ 50)%nat ∧
    (length (Status.logs s) = 50%nat →
     append_log (Status.logs s) line = tail (Status.logs s) ++ [line]).
Proof.
  intros H. eexists. split; [|split; [|split; [|split]]].
  - unfold log_message. by rewrite (update_status_present _ _ _ _ H).
  - simpl. by rewrite lookup_insert_eq.
  - apply append_log_suffix.
  - apply append_log_length.
  - apply append_log_full.
Qed.

(** C8. [get_processing_status] answers from the registry when the
    video has a record; otherwise, when a tracking file exists, it
    answers completed with progress 100; otherwise it raises 404. *)
Theorem status_query_fallback w video_id :
  (∀ s, processing_status w !! video_id = Some s →
     get_processing_status video_id w
     = (Return (ProcessStatusResponse.mk video_id (Status.status s)
                  (Status.progress s) (Status.message s) (Status.logs s)), w)) ∧
  (processing_status w !! video_id = None →
   is_Some (tracking_files w !! tracking_path video_id) →
     get_processing_status video_id w
     = (Return (ProcessStatusResponse.mk video_id "completed" 100
                  "Video processing completed" []), w)) ∧
  (processing_status w !! video_id = None →
   tracking_files w !! tracking_path video_id = None →
     get_processing_status video_id w
     = (Raise (HTTPException 404 "Video not found or not processed"), w)).
Proof.
  unfold get_processing_status, get, mbind, M_bind, mret, M_ret, raise.
  repeat split.
  - intros s Hs. by rewrite Hs.
  - intros Hn [a Ha]. by rewrite Hn, Ha.
  - intros Hn Ha. by rewrite Hn, Ha.
Qed.

Lemma start_when_processing w video_id video_path s :
  find_video (video_files w) video_id VIDEO_EXTENSIONS = Some video_path →
  processing_status w !! video_id = Some s →
  Status.status s = "processing" →
  start_processing video_id w
  = (Return (AlreadyProcessing "Video is already being processed" s), w).
Proof.
  intros Hv Hs Hp.
  unfold start_processing, get, mbind, M_bind, mret, M_ret.
  unfold already_processing. rewrite Hv, Hs. by rewrite decide_True.
Qed.

Lemma start_otherwise w video_id video_path :
  find_video (video_files w) video_id VIDEO_EXTENSIONS = Some video_path →
  (∀ s, processing_status w !! video_id = Some s →
        Status.status s ≠ "processing") →
  start_processing video_id w
  = (Return (Started "Video processing started" video_id),
     mkWorld (<[video_id := fresh_status]> (processing_status w))
       (tracking_files w) (video_files w)
       (background_tasks w ++ [(video_id, video_path)]) (trace w)).
Proof.
  intros Hv Hs.
  unfold start_processing, get, mbind, M_bind, mret, M_ret.
  unfold already_processing.
  rewrite Hv. destruct (processing_status w !! video_id) as [s|] eqn:E.
  - rewrite decide_False by by apply Hs. done.
  - done.
Qed.

(** C6. When the video file is there: a start on a record that is
    processing returns this record and changes nothing; any other start
    registers the fresh record and queues one background task; and a
    second start right after it returns the fresh record, leaves the
    registry as it is and queues nothing more. *)
Theorem start_single_flight w video_id video_path :
  find_video (video_files w) video_id VIDEO_EXTENSIONS = Some video_path →
  (∀ s, processing_status w !! video_id = Some s →
     Status.status s = "processing" →
     start_processing video_id w
     = (Return (AlreadyProcessing "Video is already being processed" s), w)) ∧
  ((∀ s, processing_status w !! video_id = Some s →
         Status.status s ≠ "processing") →
   ∃ w1,
     start_processing video_id w
     = (Return (Started "Video processing started" video_id), w1) ∧
     processing_status w1 = <[video_id := fresh_status]> (processing_status w) ∧
     background_tasks w1 = background_tasks w ++ [(video_id, video_path)] ∧
     tracking_files w1 = tracking_files w ∧
     video_files w1 = video_files w ∧
     trace w1 = trace w ∧
     start_processing video_id w1
     = (Return (AlreadyProcessing "Video is already being processed"
                  fresh_status), w1)).
Proof.
  intros Hv. split.
  - intros s Hs Hp. by eapply start_when_processing.
  - intros Hs. eexists. split; [by apply start_otherwise|].
    repeat split.
    eapply start_when_processing; simpl; [exact Hv| |done].
    by rewrite lookup_insert_eq.
Qed.

End Registry.

Lemma log_bounded_fifo_witness :
  ∃ w', log_message "v" "line" (example_started example_capture) = (Return (), w').
Proof.
  destruct (log_bounded_fifo (example_started example_capture) "v" fresh_status "line")
    as (w' & H & _); [reflexivity|].
  exists w'. exact H.
Defined.

Lemma status_query_fallback_witness :
  get_processing_status "v" (example_started example_capture)
  = (Return (ProcessStatusResponse.mk "v" "processing" 0
               "Starting video processing..." []),
     example_started example_capture).
Proof.
  destruct (status_query_fallback (example_started example_capture) "v") as (H & _).
  apply (H fresh_status). reflexivity.
Defined.

Lemma start_single_flight_witness :
  ∃ w1, start_processing "v" (example_world example_capture)
        = (Return (Started "Video processing started" "v"), w1) ∧
        start_processing "v" w1
        = (Return (AlreadyProcessing "Video is already being processed"
                     fresh_status), w1).
Proof.
  destruct (start_single_flight (example_world example_capture) "v"
              (video_file "v" ".mp4")) as (_ & H); [reflexivity|].
  destruct H as (w1 & H1 & _ & _ & _ & _ & _ & H2).
  - intros s Hs. vm_compute in Hs. discriminate.
  - exists w1. split; [exact H1 | exact H2].
Defined.

(** ** Rules for pre- and postconditions *)

Section Rules.

Context {Frame : Type}.
Implicit Types (w : World Frame).

Lemma wp_ret {A} (a : A) w (Q : A → World Frame → Prop) E :
  Q a w → wp (mret a) w Q E.
Proof. done. Qed.

Lemma wp_bind {A B} (m : M Frame A) (k : A → M Frame B) w Q E :
  wp m w (λ a w', wp (k a) w' Q E) E → wp (m ≫= k) w Q E.
Proof.
  unfold wp, mbind, M_bind. by destruct (m w) as [[a|e] w'].
Qed.

Lemma wp_mono {A} (m : M Frame A) w (Q Q' : A → World Frame → Prop)
    (E E' : exn → World Frame → Prop) :
  wp m w Q E → (∀ a w', Q a w' → Q' a w') → (∀ e w', E e w' → E' e w') →
  wp m w Q' E'.
Proof. unfold wp. destruct (m w) as [[a|e] w']; auto. Qed.

Lemma wp_lift {A} (r : result A) w (Q : A → World Frame → Prop) E :
  match r with Return a => Q a w | Raise e => E e w end → wp (lift r) w Q E.
Proof. unfold wp, lift. by destruct r. Qed.

Lemma wp_modify (f : World Frame → World Frame) w Q E :
  Q () (f w) → wp (modify f) w Q E.
Proof. done. Qed.

Lemma wp_emit ev w (Q : unit → World Frame → Prop) E :
  Q () (set_trace (λ t, t ++ [ev]) w) → wp (emit ev) w Q E.
Proof. done. Qed.

Lemma wp_invoke {A} ev (f : list Event → result A) w
    (Q : A → World Frame → Prop) E :
  match f (trace w) with
  | Return a => Q a (set_trace (λ t, t ++ [ev]) w)
  | Raise e => E e (set_trace (λ t, t ++ [ev]) w)
  end →
  wp (invoke ev f) w Q E.
Proof. unfold wp, invoke. by destruct (f (trace w)). Qed.

Lemma wp_try {A} (body : M Frame A) handler w Q E :
  wp body w Q (λ e w', wp (handler e) w' Q E) →
  wp (try_except body handler) w Q E.
Proof.
  unfold wp, try_except. by destruct (body w) as [[a|e] w'].
Qed.

Lemma wp_get w (Q : World Frame → World Frame → Prop) E :
  Q w w → wp get w Q E.
Proof. done. Qed.

Lemma wp_run {A} (m : M Frame A) w Q E :
  wp m w Q E →
  match (m w).1 with Return a => Q a (m w).2 | Raise e => E e (m w).2 end.
Proof. unfold wp. by destruct (m w) as [[a|e] w']. Qed.

(** The registry entry of a job survives whatever the callbacks do. *)
Lemma wp_update_status video_id (f : Status.t → Status.t) w s
    (Q : unit → World Frame → Prop) E :
  processing_status w !! video_id = Some s →
  Q () (set_processing_status (insert video_id (f s)) w) →
  wp (update_status video_id f) w Q E.
Proof. intros Hs HQ. unfold wp, update_status. by rewrite Hs. Qed.

End Rules.

(** ** A source that does not open *)

Section NotOpened.

Context {Frame : Type}.
Implicit Types (w : World Frame) (self : VideoProcessor Frame).

(** C3, as the code has it.  When the capture at [video_path] is not
    opened, nothing is raised: no collaborator is called, the tracking
    file is written with no frame and no object, and the job ends
    completed with progress 100. *)
Theorem unopened_video_completes self w video_id video_path s :
  processing_status w !! video_id = Some s →
  isOpened (default closed_capture (video_files w !! video_path)) = false →
  ∃ w',
    process_video_task self video_id video_path w = (Return (), w') ∧
    processing_status w' !! video_id
    = Some (Status.mk "completed" 100 "Video processing completed successfully"
              (opening_logs video_id (Status.logs s))) ∧
    tracking_files w' !! tracking_path video_id
    = Some (Artifact.mk video_id
              (CAP_PROP_FPS (default closed_capture (video_files w !! video_path)))
              (Py.int (CAP_PROP_FRAME_COUNT
                         (default closed_capture (video_files w !! video_path))))
              ∅ ∅) ∧
    trace w' = trace w.
Proof.
  intros Hs Hclosed.
  unfold process_video_task, try_except, process_video, when_set,
    log_message, cv2_VideoCapture, frames_read, modify, mbind, M_bind, mret, M_ret.
  rewrite (update_status_present _ _ _ _ Hs). simpl.
  rewrite (update_status_present _ _ s) by (simpl; by rewrite lookup_insert_eq).
  simpl. erewrite update_status_present by (simpl; by rewrite lookup_insert_eq).
  simpl. rewrite Hclosed. simpl.
  erewrite update_status_present by (simpl; by rewrite lookup_insert_eq).
  eexists. split; [reflexivity|]. simpl.
  rewrite !lookup_insert_eq. done.
Qed.

End NotOpened.

Lemma unopened_video_completes_witness :
  ∃ w',
    process_video_task example_processor "v" (video_file "v" ".mp4")
      (example_started unopened_capture) = (Return (), w') ∧
    Status.status <$> processing_status w' !! "v" = Some "completed".
Proof.
  destruct (unopened_video_completes example_processor
              (example_started unopened_capture) "v" (video_file "v" ".mp4")
              fresh_status) as (w' & H1 & H2 & _); [reflexivity..|].
  exists w'. split; [exact H1|]. by rewrite H2.
Defined.

(** C3, as the specification has it, fails: the job of a video that does
    not open is not failed but completed, and a tracking file is
    written. *)
Lemma unopened_video_not_failed :
  isOpened unopened_capture = false ∧
  Status.status
    <$> processing_status (example_job example_processor unopened_capture) !! "v"
  = Some "completed" ∧
  Status.status
    <$> processing_status (example_job example_processor unopened_capture) !! "v"
  ≠ Some "failed" ∧
  is_Some (tracking_files (example_job example_processor unopened_capture)
             !! tracking_path "v").
Proof.
  vm_compute. repeat split; [discriminate | by eexists].
Qed.

(** ** Runs of a job: what the callbacks keep *)

Section Job.

Context {Frame : Type}.
Implicit Types (w : World Frame) (self : VideoProcessor Frame).

Lemma update_status_wp video_id (f : Status.t → Status.t) w
    (Q : unit → World Frame → Prop) E :
  registered video_id w →
  (∀ w', registered video_id w' → registry_only w w' → Q () w') →
  wp (update_status video_id f) w Q E.
Proof.
  intros [s Hs] HQ. eapply wp_update_status; [exact Hs|].
  apply HQ; [|done]. unfold registered. simpl. rewrite lookup_insert_eq. by eexists.
Qed.

Lemma log_message_wp video_id line w (Q : unit → World Frame → Prop) E :
  registered video_id w →
  (∀ w', registered video_id w' → registry_only w w' → Q () w') →
  wp (log_message video_id line) w Q E.
Proof. apply update_status_wp. Qed.

Lemma update_progress_wp video_id args w (Q : unit → World Frame → Prop) E :
  registered video_id w →
  (∀ w', registered video_id w' → registry_only w w' → Q () w') →
  wp (update_progress video_id args) w Q E.
Proof. destruct args. apply update_status_wp. Qed.

Lemma registry_only_refl w : registry_only w w.
Proof. done. Qed.

Lemma registry_only_trans w1 w2 w3 :
  registry_only w1 w2 → registry_only w2 w3 → registry_only w1 w3.
Proof. unfold registry_only. intros (?&?&?) (?&?&?). repeat split; congruence. Qed.

Lemma registered_set_trace video_id f w :
  registered video_id (set_trace f w) ↔ registered video_id w.
Proof. done. Qed.

(** Frame 0 is always sampled. *)
Lemma first_frame_sampled fps : is_sampled fps 0 = true.
Proof. unfold is_sampled. by rewrite Zmod_0_l. Qed.

Lemma timestamp_zero_fps frame_num fps :
  (fps == 0)%Q → timestamp_ms frame_num fps
                 = Raise (ZeroDivisionError "float division by zero").
Proof.
  intros H. unfold timestamp_ms. apply Qeq_bool_iff in H. by rewrite H.
Qed.

Lemma timestamp_nonzero_fps frame_num fps :
  ¬ (fps == 0)%Q →
  timestamp_ms frame_num fps
  = Return (Py.int ((inject_Z frame_num / fps) * 1000)).
Proof.
  intros H. unfold timestamp_ms.
  destruct (Qeq_bool fps 0) eqn:E; [|done].
  by apply Qeq_bool_iff in E.
Qed.

Lemma update_status_same video_id s w :
  processing_status w !! video_id = Some s →
  set_processing_status (insert video_id s) w = w.
Proof.
  intros Hs. destruct w. unfold set_processing_status. simpl in *. f_equal.
  by apply insert_id.
Qed.

(** When the run raises, the job is failed and its message embeds the
    error; the logs written so far stay. *)
Lemma task_of_raising_run self video_id video_path w
    (E : exn → World Frame → Prop) :
  registered video_id w →
  wp (job_run self video_id video_path) w (λ _ _, False)
    (λ e w1, registered video_id w1 ∧ E e w1) →
  ∃ w1 e s1 w',
    E e w1 ∧ processing_status w1 !! video_id = Some s1 ∧
    process_video_task self video_id video_path w = (Return (), w') ∧
    processing_status w'
    = <[video_id := Status.mk "failed" 0 ("Processing failed: " +:+ str e)
                      (Status.logs s1)]> (processing_status w1) ∧
    tracking_files w' = tracking_files w1 ∧
    trace w' = trace w1.
Proof.
  intros [s Hs] Hrun.
  unfold process_video_task, try_except, mbind at 1, M_bind at 1.
  rewrite (update_status_present _ _ _ _ Hs). simpl.
  rewrite (update_status_same _ _ _ Hs).
  fold (job_run self video_id video_path).
  unfold wp in Hrun. unfold mbind, M_bind.
  destruct (job_run self video_id video_path w) as [[a|e] w1]; [done|].
  destruct Hrun as ([s1 Hs1] & HP). simpl.
  rewrite (update_status_present _ _ _ _ Hs1).
  by eexists w1, e, s1, _.
Qed.


End Job.

(** ** Runs that raise on the first frame *)

Section FirstFrame.

Context {Frame : Type}.
Implicit Types (w : World Frame) (self : VideoProcessor Frame).

Lemma job_run_wp self video_id video_path w s Q E :
  processing_status w !! video_id = Some s →
  (∀ w1,
     processing_status w1
     = <[video_id := opened_status video_id s]> (processing_status w) →
     registry_only w w1 →
     let cap := default closed_capture (video_files w !! video_path) in
     wp (frame_loop self video_id (Some (update_progress video_id))
           (Some (log_message video_id)) (CAP_PROP_FPS cap)
           (Py.int (CAP_PROP_FRAME_COUNT cap)) (frames_read cap)
           (mkLocals ∅ ∅ 0 0 1 [])) w1
        (λ st w2,
           Q (Artifact.mk video_id (CAP_PROP_FPS cap)
                (Py.int (CAP_PROP_FRAME_COUNT cap))
                (tracks_by_frame st) (object_products st))
             (set_tracking_files
                (insert (tracking_path video_id)
                   (Artifact.mk video_id (CAP_PROP_FPS cap)
                      (Py.int (CAP_PROP_FRAME_COUNT cap))
                      (tracks_by_frame st) (object_products st))) w2))
        E) →
  wp (job_run self video_id video_path) w Q E.
Proof.
  intros Hs Hloop. unfold job_run, process_video, when_set, log_message.
  apply wp_bind. eapply wp_update_status; [exact Hs|].
  apply wp_bind. eapply wp_update_status; [simpl; by rewrite lookup_insert_eq|].
  apply wp_bind. unfold cv2_VideoCapture at 1, wp at 1. simpl.
  apply wp_bind. eapply wp_mono; [apply Hloop | | done].
  - simpl. by rewrite insert_insert_eq.
  - done.
  - intros st w3 HQ. simpl in *.
    apply wp_bind. apply wp_modify. by apply wp_ret.
Qed.

Lemma frame_loop_first_raises self video_id pc lc fps total frame rest st w E :
  frame_num st = 0 →
  wp (analyze_frame self video_id pc lc fps total frame st) w (λ _ _, False) E →
  wp (frame_loop self video_id pc lc fps total (frame :: rest) st) w
    (λ _ _, False) E.
Proof.
  intros Hz Hraise. simpl. rewrite Hz, first_frame_sampled.
  apply wp_bind. eapply wp_mono; [exact Hraise | done | done].
Qed.

(** With [fps = 0] the loop over the detections cannot reach the
    enrichment: it returns or raises ZeroDivisionError. *)
Lemma detection_loop_zero_fps self video_id lc frame frame_num fps w :
  (fps == 0)%Q → ∀ dets fds op,
  wp (detection_loop self video_id lc frame frame_num fps dets fds op) w
    (λ _ w', w' = w)
    (λ e w', w' = w ∧ e = ZeroDivisionError "float division by zero").
Proof.
  intros Hfps. induction dets as [|d dets IH]; intros fds op; simpl.
  - by apply wp_ret.
  - apply wp_bind. destruct (op !! track_id d).
    + apply wp_ret. apply IH.
    + apply wp_bind. apply wp_lift. by rewrite timestamp_zero_fps.
Qed.

Lemma analyze_frame_zero_fps self video_id pc lc fps total frame st w :
  (fps == 0)%Q →
  wp (analyze_frame self video_id pc lc fps total frame st) w (λ _ _, False)
    (λ e w', trace_only w w' ∧ e = first_frame_error self w frame).
Proof.
  intros Hfps. unfold analyze_frame, first_frame_error.
  apply wp_bind, wp_invoke.
  destruct (grounding_dino self (trace w) frame) as [ds|e]; [|done].
  destruct (_assign_track_ids _ _ _) as [dets n].
  apply wp_bind, wp_emit. apply wp_bind.
  eapply wp_mono; [by apply detection_loop_zero_fps | |].
  - intros [fds op] w' ->. simpl.
    apply wp_bind, wp_lift. by rewrite timestamp_zero_fps.
  - by intros e w' (-> & ->).
Qed.

Lemma analyze_frame_detector_raises self video_id pc lc fps total frame st w e :
  grounding_dino self (trace w) frame = Raise e →
  wp (analyze_frame self video_id pc lc fps total frame st) w (λ _ _, False)
    (λ e' w', trace_only w w' ∧ e' = first_frame_error self w frame).
Proof.
  intros He. unfold analyze_frame, first_frame_error.
  apply wp_bind, wp_invoke. by rewrite He.
Qed.

(** A job whose first frame raises ends failed, with the error in its
    message, the opening log lines kept, and no tracking file written. *)
Lemma first_frame_failure self w video_id video_path cap frame rest s :
  video_files w !! video_path = Some cap →
  isOpened cap = true → frames cap = frame :: rest →
  processing_status w !! video_id = Some s →
  (CAP_PROP_FPS cap == 0)%Q ∨ (∃ e, grounding_dino self (trace w) frame = Raise e) →
  ∃ w',
    process_video_task self video_id video_path w = (Return (), w') ∧
    processing_status w' !! video_id
    = Some (Status.mk "failed" 0
              ("Processing failed: "
                 +:+ str (first_frame_error self w frame))
              (opening_logs video_id (Status.logs s))) ∧
    tracking_files w' = tracking_files w.
Proof.
  intros Hcap Hopen Hframes Hs Hcause.
  set (err := first_frame_error self w frame).
  destruct (task_of_raising_run self video_id video_path w
    (λ e w1, e = err ∧ tracking_files w1 = tracking_files w ∧
             processing_status w1
             = <[video_id := opened_status video_id s]> (processing_status w)))
    as (w1 & e & s1 & w' & (-> & Htf & Hps) & Hs1 & Htask & Hfinal & Htf' & _).
  { by eexists. }
  { eapply job_run_wp; [exact Hs|]. intros w1 Hps (Htr & Htf & Hvf).
    rewrite Hcap. simpl. unfold frames_read. rewrite Hopen, Hframes.
    apply frame_loop_first_raises; [done|].
    assert (Herr : first_frame_error self w1 frame = err).
    { unfold err, first_frame_error. by rewrite Htr. }
    eapply wp_mono;
      [destruct Hcause as [Hz|[e He]];
       [by apply analyze_frame_zero_fps
       |eapply analyze_frame_detector_raises; by rewrite Htr]
      | done |].
    intros e w2 ((Hps2 & Htf2 & _) & ->). simpl.
    split; [|split; [done|split; congruence]].
    unfold registered. rewrite Hps2, Hps, lookup_insert_eq. by eexists. }
  exists w'. split; [done|]. split; [|congruence].
  rewrite Hfinal, lookup_insert_eq. rewrite Hps, lookup_insert_eq in Hs1.
  by injection Hs1 as <-.
Qed.

End FirstFrame.

(** ** Runs that do not raise *)

Section Contained.

Context {Frame : Type}.
Implicit Types (w : World Frame) (self : VideoProcessor Frame).

Lemma trace_only_refl w : trace_only w w.
Proof. done. Qed.

Lemma trace_only_set_trace f w : trace_only w (set_trace f w).
Proof. done. Qed.

Lemma trace_only_registered video_id w w' :
  trace_only w w' → registered video_id w → registered video_id w'.
Proof. intros (H & _). unfold registered. by rewrite H. Qed.

(** Whatever the segmenter does, the enrichment returns when the
    product search does. *)
Lemma process_tracked_object_returns self frame d t video_id ts w :
  search_total self →
  wp (_process_tracked_object self frame d t video_id ts) w
    (λ _ w', trace_only w w') (λ _ _, False).
Proof.
  intros Hsearch. unfold _process_tracked_object.
  apply wp_try, wp_bind, wp_invoke.
  destruct (segmentation_service self _ _ _ _ _) as [mask|e].
  - apply wp_bind, wp_invoke.
    destruct (Hsearch (trace (set_trace (λ t0, t0 ++ [EvSegment video_id (bbox (det d)) ts]) w))
                (label (det d)) 1) as [ps ->].
    by apply wp_ret.
  - apply wp_bind, wp_invoke.
    destruct (Hsearch (trace (set_trace (λ t0, t0 ++ [EvSegment video_id (bbox (det d)) ts]) w))
                (label (det d)) 1) as [ps ->].
    by apply wp_ret.
Qed.

Lemma detection_loop_returns self video_id frame frame_num fps :
  search_total self → ¬ (fps == 0)%Q → ∀ dets fds op w,
  registered video_id w →
  wp (detection_loop self video_id (Some (log_message video_id)) frame
        frame_num fps dets fds op) w
    (λ _ w', registered video_id w') (λ _ _, False).
Proof.
  intros Hsearch Hfps. induction dets as [|d dets IH]; intros fds op w Hreg; simpl.
  - by apply wp_ret.
  - apply wp_bind. destruct (op !! track_id d).
    + apply wp_ret. by apply IH.
    + apply wp_bind, wp_lift. rewrite timestamp_nonzero_fps by done.
      apply wp_bind, wp_emit, wp_bind.
      eapply wp_mono; [by apply process_tracked_object_returns | | done].
      intros pi w1 Hto. simpl.
      apply wp_bind, log_message_wp.
      { eapply trace_only_registered; [exact Hto | exact Hreg]. }
      intros w2 Hreg2 _. apply wp_ret. by apply IH.
Qed.



End Contained.

(** ** Failures of the collaborators *)

Section Failures.

Context {Frame : Type}.
Implicit Types (w : World Frame) (self : VideoProcessor Frame).

Lemma segment_calls_app (T1 T2 : list Event) :
  segment_calls (T1 ++ T2) = (segment_calls T1 + segment_calls T2)%nat.
Proof. unfold segment_calls. by rewrite filter_app, length_app. Qed.




Lemma zero_fps_sample_rate fps : (fps == 0)%Q → sample_rate fps = 1.
Proof.
  intros H. unfold sample_rate, Py.int.
  assert (Qnum fps = 0) as Hn.
  { unfold Qeq in H. simpl in H. lia. }
  destruct fps as [n d]. simpl in *. subst n. done.
Qed.

(** C10. When the opened source reports fps = 0 and has a frame, every
    timestamp raises ZeroDivisionError, the first frame is analyzed,
    and the job ends failed with the error in its message and no
    tracking file written; the error is the division by zero unless
    the detector itself raised on that frame. *)
Theorem zero_fps_fails self w video_id video_path cap frame rest s :
  video_files w !! video_path = Some cap →
  isOpened cap = true → frames cap = frame :: rest →
  (CAP_PROP_FPS cap == 0)%Q →
  processing_status w !! video_id = Some s →
  (∀ i, timestamp_ms i (CAP_PROP_FPS cap)
        = Raise (ZeroDivisionError "float division by zero")) ∧
  is_sampled (CAP_PROP_FPS cap) 0 = true ∧
  ∃ w' e,
    process_video_task self video_id video_path w = (Return (), w') ∧
    processing_status w' !! video_id
    = Some (Status.mk "failed" 0 ("Processing failed: " +:+ str e)
              (opening_logs video_id (Status.logs s))) ∧
    tracking_files w' = tracking_files w ∧
    (∀ ds, grounding_dino self (trace w) frame = Return ds →
           e = ZeroDivisionError "float division by zero").
Proof.
  intros Hcap Hopen Hframes Hfps Hs. split; [|split].
  - intros i. by apply timestamp_zero_fps.
  - apply first_frame_sampled.
  - destruct (first_frame_failure self w video_id video_path cap frame rest s)
      as (w' & Htask & Hfinal & Htf); try done.
    { by left. }
    exists w', (first_frame_error self w frame). repeat split; try done.
    intros ds Hds. unfold first_frame_error. by rewrite Hds.
Qed.

End Failures.

Lemma zero_fps_fails_witness :
  ∃ w',
    process_video_task example_processor "v" (video_file "v" ".mp4")
      (example_started zero_fps_capture) = (Return (), w') ∧
    Status.message <$> processing_status w' !! "v"
    = Some "Processing failed: float division by zero".
Proof.
  destruct (zero_fps_fails example_processor (example_started zero_fps_capture)
              "v" (video_file "v" ".mp4") zero_fps_capture 0%nat (seq 1 19)
              fresh_status) as (_ & _ & w' & e & Htask & Hfinal & _ & He);
    [reflexivity..|].
  exists w'. split; [exact Htask|].
  rewrite Hfinal. simpl. by rewrite (He [cup]).
Defined.



(** A product search that raises inside the [try] is called a second time
    by the [except] branch; when it raises again the job is failed. *)
Example search_failure_is_retried :
  enriched_at (trace (example_job failing_search example_capture)) = [(0, 1)] ∧
  segment_calls (trace (example_job failing_search example_capture)) = 1%nat ∧
  search_calls (trace (example_job failing_search example_capture)) = 2%nat ∧
  Status.message
    <$> processing_status (example_job failing_search example_capture) !! "v"
  = Some "Processing failed: search down".
Proof. by vm_compute. Qed.

(** A segmenter that is down costs the mask, not the job. *)
Example segmenter_failure_is_degraded :
  segment_calls (trace (example_job failing_segmenter example_capture)) = 1%nat ∧
  Status.status
    <$> processing_status (example_job failing_segmenter example_capture) !! "v"
  = Some "completed" ∧
  (tracking_files (example_job failing_segmenter example_capture)
     !! tracking_path "v")
    ≫= (λ a, Artifact.object_products a !! 1)
  = Some (ProductInfo.mk 1 "cup" "owlvit" None None).
Proof. by vm_compute. Qed.

(** ** Enrichment happens once per track *)

Lemma enriched_at_app (T1 T2 : list Event) :
  enriched_at (T1 ++ T2) = enriched_at T1 ++ enriched_at T2.
Proof. apply omap_app. Qed.

Lemma produced_at_app (T1 T2 : list Event) :
  produced_at (T1 ++ T2) = produced_at T1 ++ produced_at T2.
Proof. apply omap_app. Qed.

Lemma first_frame_app t (P1 P2 : list (Z * list Z)) :
  first_frame t (P1 ++ P2)
  = match first_frame t P1 with
    | Some f => Some f
    | None => first_frame t P2
    end.
Proof.
  induction P1 as [|[f ids] P1 IH]; simpl; [done|].
  by destruct (decide (t ∈ ids)).
Qed.

Lemma calls_of_absent (L : list (Z * Z)) (t : Z) :
  t ∉ L.*2 → filter (λ c, c.2 = t) L = [].
Proof.
  induction L as [|c L IH]; [done|]. rewrite fmap_cons, not_elem_of_cons.
  intros [Hne Hnot]. rewrite filter_cons, decide_False by done. by apply IH.
Qed.

Lemma calls_of_present (L : list (Z * Z)) (t : Z) :
  NoDup L.*2 → t ∈ L.*2 → length (filter (λ c, c.2 = t) L) = 1%nat.
Proof.
  induction L as [|c L IH]; [by intros _ ?%elem_of_nil|].
  rewrite fmap_cons, NoDup_cons, elem_of_cons. intros [Hc Hnd] Hin.
  rewrite filter_cons. destruct (decide (c.2 = t)) as [Heq|Hne].
  - subst t. by rewrite calls_of_absent.
  - destruct Hin as [?|Hin]; [congruence|]. by apply IH.
Qed.

Section Enrichment.

Context {Frame : Type}.
Implicit Types (w : World Frame) (self : VideoProcessor Frame).

Lemma quiet_refl w : quiet w w.
Proof. done. Qed.

Lemma quiet_trans w1 w2 w3 : quiet w1 w2 → quiet w2 w3 → quiet w1 w3.
Proof. unfold quiet. intros [? ?] [? ?]. split; congruence. Qed.

Lemma quiet_same_trace w w' : trace w' = trace w → quiet w w'.
Proof. unfold quiet. by intros ->. Qed.

Lemma quiet_enrich_ok w w' : quiet w w' → enrich_ok (trace w) → enrich_ok (trace w').
Proof. unfold quiet, enrich_ok. by intros [-> ->]. Qed.

Lemma first_frame_removelast t (P : list (Z * list Z)) :
  is_Some (first_frame t (removelast P)) → is_Some (first_frame t P).
Proof.
  destruct (decide (P = [])) as [->|Hne]; [done|].
  rewrite (app_removelast_last (0, []) Hne) at 2. rewrite first_frame_app.
  intros [f ->]. by eexists.
Qed.

Lemma aborted_ok_complete T :
  enrich_ok T →
  (∀ t, is_Some (first_frame t (produced_at T)) → t ∈ (enriched_at T).*2) →
  aborted_ok T.
Proof.
  intros Hok Hall. split; [done|].
  intros t Ht. by apply Hall, first_frame_removelast.
Qed.

Lemma aborted_ok_frame_inv op w : frame_inv op w → aborted_ok (trace w).
Proof.
  intros (Hok & Hidx & Hall). apply aborted_ok_complete; [done|].
  intros t Ht. by apply Hidx, Hall.
Qed.

Lemma aborted_ok_last_output T P x :
  enrich_ok T → produced_at T = P ++ [x] →
  (∀ t, is_Some (first_frame t P) → t ∈ (enriched_at T).*2) →
  aborted_ok T.
Proof.
  intros Hok HP Hall. split; [done|]. by rewrite HP, removelast_last.
Qed.

Lemma quiet_aborted_ok w w' :
  quiet w w' → aborted_ok (trace w) → aborted_ok (trace w').
Proof. unfold quiet, aborted_ok, enrich_ok. by intros [-> ->]. Qed.

Lemma quiet_segment w video_id b ts :
  quiet w (set_trace (λ t, t ++ [EvSegment video_id b ts]) w).
Proof.
  unfold quiet. simpl. rewrite enriched_at_app, produced_at_app. simpl.
  by rewrite !app_nil_r.
Qed.

Lemma quiet_search w category top_k :
  quiet w (set_trace (λ t, t ++ [EvSearch category top_k]) w).
Proof.
  unfold quiet. simpl. rewrite enriched_at_app, produced_at_app. simpl.
  by rewrite !app_nil_r.
Qed.

Lemma quiet_detect w f :
  quiet w (set_trace (λ t, t ++ [EvDetect f]) w).
Proof.
  unfold quiet. simpl. rewrite enriched_at_app, produced_at_app. simpl.
  by rewrite !app_nil_r.
Qed.

Lemma process_tracked_object_quiet self frame d t video_id ts w :
  wp (_process_tracked_object self frame d t video_id ts) w
    (λ _ w', quiet w w') (λ _ w', quiet w w').
Proof.
  unfold _process_tracked_object.
  pose proof (quiet_segment w video_id (bbox (det d)) ts) as Hseg.
  set (w1 := set_trace _ w) in *.
  pose proof (quiet_trans _ _ _ Hseg (quiet_search w1 (label (det d)) 1)) as H2.
  pose proof (quiet_trans _ _ _ H2
    (quiet_search (set_trace (λ t0, t0 ++ [EvSearch (label (det d)) 1]) w1)
       (label (det d)) 1)) as H3.
  apply wp_try, wp_bind, wp_invoke.
  destruct (segmentation_service self _ _ _ _ _) as [mask|e]; fold w1.
  - apply wp_bind, wp_invoke.
    destruct (product_search self _ _ _) as [ps|e].
    + by apply wp_ret.
    + apply wp_bind, wp_invoke.
      destruct (product_search self _ _ _) as [ps|e']; [by apply wp_ret | done].
  - apply wp_bind, wp_invoke.
    destruct (product_search self _ _ _) as [ps|e']; [by apply wp_ret | done].
Qed.

Lemma when_set_silent {A} (callback : option (A → M Frame unit)) (a : A) w :
  silent callback →
  wp (when_set callback a) w (λ _ w', trace w' = trace w)
    (λ _ w', trace w' = trace w).
Proof.
  intros Hsilent. destruct callback as [cb|]; simpl; [|done].
  specialize (Hsilent cb eq_refl a w). unfold wp.
  by destruct (cb a w) as [[[]|e] w'].
Qed.

Lemma enrich_ok_new_call T op P f ids t :
  enrich_ok T → indexed T op → produced_at T = P ++ [(f, ids)] →
  all_indexed P op → t ∈ ids → op !! t = None →
  enrich_ok (T ++ [EvEnrich f t]).
Proof.
  intros [Hnd Hfirst] Hidx HP Hall Hin Hnone.
  assert (Hfresh : t ∉ (enriched_at T).*2).
  { intros Ht%Hidx. rewrite Hnone in Ht. by destruct Ht. }
  unfold enrich_ok. rewrite enriched_at_app, produced_at_app. simpl.
  rewrite app_nil_r, fmap_app. simpl. split.
  - apply NoDup_app. split; [done|]. split.
    + intros t' Ht' ->%list_elem_of_singleton. done.
    + apply NoDup_singleton.
  - intros f' t' [Hold|Hnew%list_elem_of_singleton]%elem_of_app.
    + by apply Hfirst.
    + injection Hnew as -> ->. rewrite HP, first_frame_app.
      destruct (first_frame t P) as [f0|] eqn:E.
      * destruct (Hall t) as [pi Hpi]; [by eexists | congruence].
      * simpl. by rewrite decide_True.
Qed.

Lemma indexed_insert T op f t pi :
  indexed T op → indexed (T ++ [EvEnrich f t]) (<[t := pi]> op).
Proof.
  intros Hidx t'. rewrite enriched_at_app, fmap_app, elem_of_app. simpl.
  rewrite list_elem_of_singleton, lookup_insert_is_Some.
  specialize (Hidx t'). destruct (decide (t = t')); intuition congruence.
Qed.

Lemma indexed_quiet w w' op :
  quiet w w' → indexed (trace w) op → indexed (trace w') op.
Proof. unfold quiet, indexed. by intros [-> _]. Qed.

Lemma all_indexed_insert P op t pi :
  all_indexed P op → all_indexed P (<[t := pi]> op).
Proof.
  intros Hall t' Ht'. rewrite lookup_insert_is_Some.
  destruct (decide (t = t')); [by left | right; split; [done | by apply Hall]].
Qed.

Lemma detection_loop_enrich self video_id lc frame f fps P ids :
  silent lc → ∀ dets fds op w,
  detection_inv P f ids dets op w →
  wp (detection_loop self video_id lc frame f fps dets fds op) w
    (λ r w', detection_inv P f ids [] r.2 w')
    (λ _ w', aborted_ok (trace w')).
Proof.
  intros Hlc. induction dets as [|d dets IH];
    intros fds op w (Hok & Hidx & HP & Hall & Hsub & Hdone); simpl.
  - by apply wp_ret.
  - apply wp_bind. destruct (op !! track_id d) as [pi|] eqn:Hop.
    + apply wp_ret. apply IH. split_and!; [done..| |].
      * intros t Ht. apply Hsub. simpl. by right.
      * intros t Ht Hnot. destruct (decide (t = track_id d)) as [->|Hne].
        -- by eexists.
        -- apply Hdone; [done|]. rewrite fmap_cons. intros [?|?]%elem_of_cons; done.
    + assert (Hab : aborted_ok (trace w)).
      { apply (aborted_ok_last_output _ P (f, ids)); [done..|].
        intros t Ht. by apply Hidx, Hall. }
      apply wp_bind, wp_lift. destruct (timestamp_ms f fps) as [ts|e]; [|done].
      apply wp_bind, wp_emit.
      assert (Hin : track_id d ∈ ids) by (apply Hsub; simpl; by left).
      pose proof (enrich_ok_new_call _ _ _ _ _ _ Hok Hidx HP Hall Hin Hop) as Hok1.
      set (w1 := set_trace _ w).
      assert (HP1 : produced_at (trace w1) = P ++ [(f, ids)]).
      { unfold w1. simpl. rewrite produced_at_app. simpl. by rewrite app_nil_r. }
      assert (Hab1 : aborted_ok (trace w1)).
      { apply (aborted_ok_last_output _ P (f, ids)); [done..|].
        intros t Ht. unfold w1. simpl. rewrite enriched_at_app, fmap_app.
        apply elem_of_app. left. by apply Hidx, Hall. }
      apply wp_bind.
      eapply wp_mono; [apply process_tracked_object_quiet | |].
      2:{ intros e w2 Hq. by apply (quiet_aborted_ok w1). }
      intros pi w2 Hq. simpl. apply wp_bind.
      eapply wp_mono; [by apply when_set_silent | |].
      2:{ intros e w3 Htr. apply (quiet_aborted_ok w1); [|done].
          eapply quiet_trans; [exact Hq | by apply quiet_same_trace]. }
      intros [] w3 Htr. apply wp_ret. apply IH.
      assert (Hq3 : quiet w1 w3).
      { eapply quiet_trans; [exact Hq | by apply quiet_same_trace]. }
      split_and!.
      * by apply (quiet_enrich_ok w1).
      * apply (indexed_quiet w1); [done|]. by apply indexed_insert.
      * destruct Hq3 as [_ ->]. done.
      * by apply all_indexed_insert.
      * intros t Ht. apply Hsub. simpl. by right.
      * intros t Ht Hnot. rewrite lookup_insert_is_Some.
        destruct (decide (track_id d = t)) as [|Hne]; [by left|].
        right. split; [done|]. apply Hdone; [done|].
        rewrite fmap_cons. intros [?|?]%elem_of_cons; done.
Qed.

Lemma enrich_ok_new_output T f ids :
  enrich_ok T → enrich_ok (T ++ [EvTrack f ids]).
Proof.
  intros [Hnd Hfirst]. unfold enrich_ok.
  rewrite enriched_at_app, produced_at_app. simpl. rewrite app_nil_r.
  split; [done|]. intros f' t Hin. rewrite first_frame_app.
  by rewrite (Hfirst _ _ Hin).
Qed.

Lemma detection_inv_done P f ids op w :
  detection_inv P f ids [] op w → frame_inv op w.
Proof.
  intros (Hok & Hidx & HP & Hall & _ & Hdone). split_and!; [done..|].
  intros t. rewrite HP, first_frame_app.
  destruct (first_frame t P) as [f0|] eqn:E.
  - intros _. apply Hall. by rewrite E.
  - simpl. destruct (decide (t ∈ ids)) as [Hin|]; [|by intros []].
    intros _. apply Hdone; [done|]. simpl. by intros ?%elem_of_nil.
Qed.

Lemma analyze_frame_enrich self video_id pc lc fps total frame st w :
  silent pc → silent lc →
  frame_inv (object_products st) w →
  wp (analyze_frame self video_id pc lc fps total frame st) w
    (λ st' w', frame_inv (object_products st') w')
    (λ _ w', aborted_ok (trace w')).
Proof.
  intros Hpc Hlc Hinv0. pose proof Hinv0 as (Hok & Hidx & Hall).
  unfold analyze_frame.
  pose proof (quiet_detect w (frame_num st)) as Hq.
  pose proof (quiet_enrich_ok _ _ Hq Hok) as Hok1.
  pose proof (quiet_aborted_ok _ _ Hq (aborted_ok_frame_inv _ _ Hinv0)) as Hab1.
  destruct Hq as [Hqe Hqp]. simpl in Hqe, Hqp, Hok1, Hab1.
  apply wp_bind, wp_invoke.
  destruct (grounding_dino self (trace w) frame) as [ds|e]; [|done].
  destruct (_assign_track_ids _ _ _) as [dets n].
  apply wp_bind, wp_emit, wp_bind.
  eapply wp_mono;
    [apply (detection_loop_enrich self video_id lc frame (frame_num st) fps
              (produced_at (trace w ++ [EvDetect (frame_num st)]))
              (track_id <$> dets) Hlc) | |].
  - split_and!; simpl.
    + by apply enrich_ok_new_output.
    + intros t. rewrite enriched_at_app. simpl. rewrite app_nil_r, Hqe.
      apply Hidx.
    + by rewrite produced_at_app.
    + by rewrite Hqp.
    + done.
    + done.
  - intros [fds op] w2 Hinv%detection_inv_done. simpl in *.
    apply wp_bind, wp_lift.
    destruct (timestamp_ms (frame_num st) fps) as [ts|e];
      [|by apply (aborted_ok_frame_inv op)].
    apply wp_bind.
    assert (Hcb : wp (match pc with
                      | Some cb =>
                          progress ← lift (progress_percent (frame_num st) total);
                          cb (progress,
                              "Processing frame " +:+ pretty (frame_num st) +:+ "/"
                                +:+ pretty total +:+ " - Found "
                                +:+ pretty (length dets) +:+ " objects")
                      | None => mret ()
                      end) w2 (λ _ w', trace w' = trace w2)
                   (λ _ w', trace w' = trace w2)).
    { destruct pc as [cb|]; [|done].
      apply wp_bind, wp_lift. destruct (progress_percent _ _) as [p|e]; [|done].
      specialize (Hpc cb eq_refl (p, "Processing frame " +:+ pretty (frame_num st) +:+ "/"
                                +:+ pretty total +:+ " - Found "
                                +:+ pretty (length dets) +:+ " objects") w2).
      unfold wp. by destruct (cb _ w2) as [[[]|e] w']. }
    eapply wp_mono; [exact Hcb | |].
    + intros [] w3 Htr. apply wp_ret. simpl. unfold frame_inv. by rewrite Htr.
    + intros e w3 Htr. simpl. rewrite Htr. by apply (aborted_ok_frame_inv op).
  - done.
Qed.

Lemma frame_loop_enrich self video_id pc lc fps total :
  silent pc → silent lc → ∀ fs st w,
  frame_inv (object_products st) w →
  wp (frame_loop self video_id pc lc fps total fs st) w
    (λ st' w', frame_inv (object_products st') w')
    (λ _ w', aborted_ok (trace w')).
Proof.
  intros Hpc Hlc. induction fs as [|frame fs IH]; intros st w Hinv; simpl.
  - by apply wp_ret.
  - apply wp_bind. destruct (is_sampled fps (frame_num st)).
    + eapply wp_mono; [by apply analyze_frame_enrich | | done].
      intros st' w' Hinv'. by apply IH.
    + apply wp_ret. by apply IH.
Qed.

Lemma process_video_enrich self video_id video_path pc lc w :
  silent pc → silent lc → trace w = [] →
  wp (process_video self video_id video_path pc lc) w
    (λ _ w', enrich_ok (trace w') ∧
             ∀ t, is_Some (first_frame t (produced_at (trace w'))) →
                  t ∈ (enriched_at (trace w')).*2)
    (λ _ w', aborted_ok (trace w')).
Proof.
  intros Hpc Hlc Hnil. unfold process_video.
  assert (Hinit : ∀ w', trace w' = [] → frame_inv ∅ w').
  { intros w' Hw'. unfold frame_inv, enrich_ok, indexed, all_indexed.
    rewrite Hw'. simpl. split_and!.
    - constructor.
    - by intros f t ?%elem_of_nil.
    - intros t. rewrite lookup_empty. split; [by intros ?%elem_of_nil | by intros []].
    - by intros t []. }
  assert (Hnone : ∀ w', trace w' = [] → aborted_ok (trace w')).
  { intros w' Hw'. by apply (aborted_ok_frame_inv ∅), Hinit. }
  apply wp_bind.
  eapply wp_mono; [by apply when_set_silent | | intros e w1 Htr; apply Hnone; congruence].
  intros [] w1 Htr1. simpl. apply wp_bind.
  eapply wp_mono; [by apply when_set_silent | | intros e w2 Htr; apply Hnone; congruence].
  intros [] w2 Htr2. simpl. apply wp_bind.
  unfold cv2_VideoCapture at 1, wp at 1. apply wp_bind.
  eapply wp_mono; [apply frame_loop_enrich; try done | | done].
  { apply Hinit. congruence. }
  intros st w3 (Hok & Hidx & Hall). simpl.
  apply wp_bind, wp_modify, wp_ret. simpl. split; [done|].
  intros t Ht. apply Hidx. by apply Hall.
Qed.

Lemma job_callbacks_silent video_id :
  silent (Frame := Frame) (Some (update_progress video_id)) ∧
  silent (Frame := Frame) (Some (log_message video_id)).
Proof.
  assert (H : ∀ f w, trace (update_status video_id f w).2 = trace w).
  { intros f w. unfold update_status.
    by destruct (processing_status w !! video_id). }
  split; intros cb [= <-] a w.
  - destruct a. apply H.
  - apply H.
Qed.

(** C2. In a job run that starts from an empty trace, no track is
    enriched twice, and every enrichment call is made at the frame
    where its track first came out of the tracker.  When the run
    returns, every track that came out of the tracker has been
    enriched, exactly once; when it raises, this holds for every track
    that came out before the last tracker output. *)
Theorem enrichment_exactly_once self video_id video_path w :
  trace w = [] →
  let run := job_run self video_id video_path w in
  NoDup (enriched_at (trace run.2)).*2 ∧
  (∀ f t, (f, t) ∈ enriched_at (trace run.2) →
          first_frame t (produced_at (trace run.2)) = Some f) ∧
  (∀ a, run.1 = Return a →
        ∀ t, is_Some (first_frame t (produced_at (trace run.2))) →
             length (filter (λ c, c.2 = t) (enriched_at (trace run.2))) = 1%nat) ∧
  (∀ t, is_Some (first_frame t (removelast (produced_at (trace run.2)))) →
        length (filter (λ c, c.2 = t) (enriched_at (trace run.2))) = 1%nat).
Proof.
  intros Hnil run.
  destruct (job_callbacks_silent video_id) as [Hpc Hlc].
  pose proof (wp_run _ _ _ _
    (process_video_enrich self video_id video_path _ _ w Hpc Hlc Hnil)) as H.
  fold (job_run self video_id video_path) in H. fold run in H.
  destruct run.1 as [a|e] eqn:E.
  - destruct H as (Hok & Hall).
    destruct (aborted_ok_complete _ Hok Hall) as [[Hnd Hfirst] Hearlier].
    split_and!; [done..| |].
    + intros a' _ t Ht. apply calls_of_present; [done | by apply Hall].
    + intros t Ht. apply calls_of_present; [done | by apply Hearlier].
  - destruct H as [[Hnd Hfirst] Hearlier]. split_and!; [done..| |].
    + by intros a' [=].
    + intros t Ht. apply calls_of_present; [done | by apply Hearlier].
Qed.

End Enrichment.

Lemma enrichment_exactly_once_witness :
  NoDup (enriched_at (trace example_run.2)).*2 ∧
  enriched_at (trace example_run.2) = [(0, 1)] ∧
  produced_at (trace example_run.2) = [(0, [1]); (5, [1]); (10, [1]); (15, [1])].
Proof.
  split; [|by vm_compute].
  destruct (enrichment_exactly_once example_processor "v"
              (video_file "v" ".mp4") (example_started example_capture)
              eq_refl) as (H & _).
  exact H.
Defined.

(** ** Frame sampling *)

Lemma int_nonneg (q : Q) : (0 <= q)%Q → Py.int q = Qfloor q.
Proof.
  destruct q as [n d]. unfold Qle, Py.int, Qfloor. simpl. intros H.
  apply Z.quot_div_nonneg; lia.
Qed.

Lemma int_floor_bounds (q : Q) :
  (0 <= q)%Q → (inject_Z (Py.int q) <= q < inject_Z (Py.int q + 1))%Q.
Proof.
  intros H. rewrite int_nonneg by done. split.
  - apply Qfloor_le.
  - apply Qlt_floor.
Qed.


Section Sampling.

Context {Frame : Type}.
Implicit Types (w : World Frame) (self : VideoProcessor Frame).





End Sampling.


Section SamplingRule.

Context {Frame : Type}.
Implicit Types (w : World Frame) (self : VideoProcessor Frame).





End SamplingRule.


(** The run of the specification: 10 fps, 20 frames, one cup that stays in
    place.  Frames 0, 5, 10 and 15 are analyzed, stamped 0, 500, 1000 and
    1500 ms, and a single track comes out. *)
Example ten_fps_run :
  sample_rate 10 = 5 ∧
  detected_at (trace (example_job example_processor example_capture))
  = [0; 5; 10; 15] ∧
  produced_at (trace (example_job example_processor example_capture))
  = [(0, [1]); (5, [1]); (10, [1]); (15, [1])] ∧
  enriched_at (trace (example_job example_processor example_capture)) = [(0, 1)] ∧
  ((tracking_files (example_job example_processor example_capture)
      !! tracking_path "v")
     ≫= (λ a, Some (dom (Artifact.tracks_by_frame a))))
  = Some ({[0; 500; 1000; 1500]} : gset Z) ∧
  Status.status
    <$> processing_status (example_job example_processor example_capture) !! "v"
  = Some "completed".
Proof. by vm_compute. Qed.

(** * Further properties *)

(** ** The tracker: ids of one call *)

Lemma assign_new_spec (current : list Detection) : ∀ n,
  assign_new current n
  = (imap (λ i d, mkTracked d (n + Z.of_nat i)) current,
     n + Z.of_nat (length current)).
Proof.
  induction current as [|d ds IH]; intros n; simpl.
  - by rewrite Z.add_0_r.
  - rewrite IH. f_equal.
    + rewrite Z.add_0_r. f_equal. apply imap_ext. intros i x _. simpl.
      f_equal. lia.
    + lia.
Qed.

(** X1.  No previous detections: the ids are [n], [n + 1], ... in input order,
    and the counter advances by the number of detections. *)
Theorem first_frame_ids (current : list Detection) (n : Z) :
  _assign_track_ids current [] n
  = (imap (λ i d, mkTracked d (n + Z.of_nat i)) current,
     n + Z.of_nat (length current)) ∧
  (∀ (i : nat) t, (_assign_track_ids current [] n).1 !! i = Some t →
       current !! i = Some (det t) ∧ track_id t = n + Z.of_nat i).
Proof.
  unfold _assign_track_ids. rewrite assign_new_spec. split; [done|].
  simpl. intros i t. rewrite list_lookup_imap.
  destruct (current !! i) as [d|]; simpl; [|done].
  by intros [= <-].
Qed.

Lemma first_frame_ids_witness :
  _assign_track_ids [cup; bottle] [] 3
  = ([mkTracked cup 3; mkTracked bottle 4], 5).
Proof.
  destruct (first_frame_ids [cup; bottle] 3) as [H _].
  rewrite H. reflexivity.
Defined.

Lemma match_run_dets previous matched n ds ts matched' n' :
  match_run previous matched n ds ts matched' n' → det <$> ts = ds.
Proof.
  induction 1 as [|matched n d ds t m1 n1 ts m2 n2 Hstep Hrun IH]; [done|].
  rewrite !fmap_cons, IH. by inversion Hstep.
Qed.

(** Where the ids of a call come from, and what the counter counts. *)
Lemma match_run_origin previous matched n ds ts matched' n' :
  match_run previous matched n ds ts matched' n' →
  (∀ p, p ∈ previous → track_id p < n) →
  n' = n + Z.of_nat (length (filter (λ t, n ≤ track_id t) ts)) ∧
  ∀ t, t ∈ ts →
       (track_id t ∈ track_id <$> previous ∧ track_id t < n)
       ∨ n ≤ track_id t < n'.
Proof.
  intros Hrun Hprev.
  assert (Hgen : ∀ b, b ≤ n → (∀ p, p ∈ previous → track_id p < b) →
    n' = n + Z.of_nat (length (filter (λ t, b ≤ track_id t) ts)) ∧
    n ≤ n' ∧
    ∀ t, t ∈ ts →
         (track_id t ∈ track_id <$> previous ∧ track_id t < b)
         ∨ n ≤ track_id t < n').
  { clear Hprev.
    induction Hrun as [|matched n d ds t m1 n1 ts m2 n2 Hstep Hrun IH];
      intros b Hb Hprev.
    - split; [simpl; lia|]. split; [lia|]. by intros t ?%elem_of_nil.
    - inversion Hstep as [? ? ? p Hfirst Hiou | ? ? ? Hall]; subst.
      + destruct (IH b Hb Hprev) as (Hn & Hle & Hids).
        apply first_max_elem, elem_of_candidates in Hfirst as (Hin & _ & _).
        pose proof (Hprev _ Hin) as Hlt.
        rewrite filter_cons, decide_False by (simpl; lia).
        split; [done|]. split; [done|].
        intros t [->|Ht]%elem_of_cons; [|by apply Hids].
        left. simpl. split; [|done]. by apply list_elem_of_fmap_2.
      + destruct (IH b ltac:(lia) Hprev) as (Hn & Hle & Hids).
        rewrite filter_cons, decide_True by (simpl; lia).
        split; [simpl length; lia|]. split; [lia|].
        intros t [->|Ht]%elem_of_cons.
        * right. simpl. lia.
        * destruct (Hids _ Ht) as [?|?]; [by left | right; lia]. }
  destruct (Hgen n ltac:(lia) Hprev) as (Hn & _ & Hids).
  split; [lia | done].
Qed.

(** The early return for an empty previous list gives what the general
    loop would give. *)
Lemma assign_new_match_loop (current : list Detection) : ∀ matched n,
  match_loop current [] matched n = assign_new current n.
Proof.
  induction current as [|d ds IH]; intros matched n; [done|].
  simpl. by rewrite IH.
Qed.

Lemma assign_track_ids_match_loop current previous n :
  _assign_track_ids current previous n = match_loop current previous ∅ n.
Proof.
  destruct previous; [|done]. simpl. by rewrite assign_new_match_loop.
Qed.

Lemma assign_track_ids_facts (current : list Detection)
    (previous : list Tracked) (n : Z) :
  (∀ p, p ∈ previous → track_id p < n) →
  det <$> (_assign_track_ids current previous n).1 = current ∧
  (_assign_track_ids current previous n).2
  = n + Z.of_nat (length (filter (λ t, n ≤ track_id t)
                            (_assign_track_ids current previous n).1)) ∧
  NoDup (track_id <$> (_assign_track_ids current previous n).1) ∧
  ∀ t, t ∈ (_assign_track_ids current previous n).1 →
       (track_id t ∈ track_id <$> previous ∧ track_id t < n)
       ∨ n ≤ track_id t < (_assign_track_ids current previous n).2.
Proof.
  intros Hprev. rewrite assign_track_ids_match_loop.
  destruct (match_loop_run previous current ∅ n) as [m' Hrun].
  destruct (match_run_origin _ _ _ _ _ _ _ Hrun Hprev) as [Hn Hids].
  destruct (match_run_ids _ n _ _ _ _ _ _ Hrun Hprev ltac:(lia))
    as (_ & _ & Hnd & _).
  split_and!; [by eapply match_run_dets | done | done | done].
Qed.

(** X2.  Every call keeps the detections and their order, gives pairwise
    distinct ids, each one taken from a previous track or fresh from the
    counter, and advances the counter by the number of fresh ids. *)
Theorem assign_track_ids_accounting (current : list Detection)
    (previous : list Tracked) (n : Z) :
  (∀ p, p ∈ previous → track_id p < n) →
  det <$> (_assign_track_ids current previous n).1 = current ∧
  (_assign_track_ids current previous n).2
  = n + Z.of_nat (length (filter (λ t, n ≤ track_id t)
                            (_assign_track_ids current previous n).1)) ∧
  NoDup (track_id <$> (_assign_track_ids current previous n).1) ∧
  ∀ t, t ∈ (_assign_track_ids current previous n).1 →
       (track_id t ∈ track_id <$> previous ∧ track_id t < n)
       ∨ n ≤ track_id t < (_assign_track_ids current previous n).2.
Proof. apply assign_track_ids_facts. Qed.

Lemma assign_track_ids_accounting_witness :
  det <$> (_assign_track_ids [cup_moved; bottle] [cup_track5] 6).1
  = [cup_moved; bottle] ∧
  (_assign_track_ids [cup_moved; bottle] [cup_track5] 6).2 = 7.
Proof.
  destruct (assign_track_ids_accounting [cup_moved; bottle] [cup_track5] 6)
    as (H1 & H2 & _).
  - intros p ->%list_elem_of_singleton. done.
  - split; [exact H1|]. rewrite H2. by vm_compute.
Defined.

(** ** The tracker: when an id is reused *)

Lemma match_run_justified previous matched n ds ts matched' n' :
  match_run previous matched n ds ts matched' n' →
  n ≤ n' ∧
  ∀ t, t ∈ ts →
       (∃ p, p ∈ previous ∧ track_id t = track_id p ∧
             label (det p) = label (det t) ∧
             (IOU_THRESHOLD < iou_with (det t) p)%Q)
       ∨ n ≤ track_id t < n'.
Proof.
  induction 1 as [|matched n d ds t m1 n1 ts m2 n2 Hstep Hrun IH].
  - split; [lia|]. by intros t ?%elem_of_nil.
  - destruct IH as [Hle Hids].
    inversion Hstep as [? ? ? p Hfirst Hiou | ? ? ? Hall]; subst.
    + split; [done|]. intros t [->|Ht]%elem_of_cons; [|by apply Hids].
      left. exists p.
      apply first_max_elem, elem_of_candidates in Hfirst as (Hin & _ & Hlab).
      done.
    + split; [lia|]. intros t [->|Ht]%elem_of_cons.
      * right. simpl. lia.
      * destruct (Hids _ Ht) as [?|?]; [by left | right; lia].
Qed.




(** ** The tracker: a scene that does not change *)






(** ** More rules for runs *)

Section MoreRules.

Context {Frame : Type}.
Implicit Types (w : World Frame) (self : VideoProcessor Frame).

Lemma wp_and {A} (m : M Frame A) w Q1 Q2 E1 E2 :
  wp m w Q1 E1 → wp m w Q2 E2 →
  wp m w (λ a w', Q1 a w' ∧ Q2 a w') (λ e w', E1 e w' ∧ E2 e w').
Proof. unfold wp. by destruct (m w) as [[a|e] w']. Qed.

(** An invariant of [analyze_frame] that does not look at [frame_num]
    is an invariant of the frame loop. *)
Lemma frame_loop_wp self video_id pc lc fps total
    (I : Locals → World Frame → Prop) (E : exn → World Frame → Prop) :
  (∀ st w, I st w → I (next_frame st) w) →
  (∀ frame st w, I st w →
     wp (analyze_frame self video_id pc lc fps total frame st) w I E) →
  ∀ fs st w, I st w →
  wp (frame_loop self video_id pc lc fps total fs st) w I E.
Proof.
  intros Hnext Hbody. induction fs as [|frame fs IH]; intros st w HI.
  - by apply wp_ret.
  - cbn [frame_loop]. apply wp_bind. destruct (is_sampled fps (frame_num st)).
    + eapply wp_mono; [by apply Hbody | | done].
      intros st' w' HI'. apply IH. by apply (Hnext st').
    + apply wp_ret. apply IH. by apply (Hnext st).
Qed.

Lemma extends_inner_refl w : extends_inner w w.
Proof. exists []. by rewrite app_nil_r. Qed.

Lemma extends_inner_trans w1 w2 w3 :
  extends_inner w1 w2 → extends_inner w2 w3 → extends_inner w1 w3.
Proof.
  intros (e1 & H1 & F1) (e2 & H2 & F2). exists (e1 ++ e2).
  split; [by rewrite H2, H1, app_assoc | by apply Forall_app].
Qed.

Lemma extends_inner_event w ev :
  inner_event ev → extends_inner w (set_trace (λ t, t ++ [ev]) w).
Proof. intros Hev. exists [ev]. split; [done | by constructor]. Qed.

Lemma extends_inner_same w w' : trace w' = trace w → extends_inner w w'.
Proof. intros H. exists []. by rewrite app_nil_r. Qed.

Lemma inner_produced (evs : list Event) :
  Forall inner_event evs → produced_at evs = [] ∧ detected_at evs = [].
Proof.
  induction 1 as [|ev evs Hev _ [IH1 IH2]]; [done|].
  destruct ev; try done; cbn; by rewrite ?IH1, ?IH2.
Qed.

Lemma extends_inner_produced w w' :
  extends_inner w w' → produced_at (trace w') = produced_at (trace w).
Proof.
  intros (evs & -> & [H _]%inner_produced).
  by rewrite produced_at_app, H, app_nil_r.
Qed.

Lemma process_tracked_object_inner self frame d t video_id ts w :
  extends_inner w (_process_tracked_object self frame d t video_id ts w).2.
Proof.
  unfold _process_tracked_object, try_except, invoke, mbind, M_bind, mret, M_ret.
  destruct (segmentation_service self _ _ _ _ _) as [mask|e]; simpl.
  - destruct (product_search self _ _ _) as [ps|e]; simpl.
    + eexists [_; _]. split; [simpl; by rewrite <- app_assoc | by repeat constructor].
    + destruct (product_search self _ _ _) as [ps|e']; simpl;
        (eexists [_; _; _]; split;
         [simpl; by rewrite <- !app_assoc | by repeat constructor]).
  - destruct (product_search self _ _ _) as [ps|e']; simpl;
      (eexists [_; _]; split;
       [simpl; by rewrite <- app_assoc | by repeat constructor]).
Qed.

Lemma detection_loop_inner self video_id lc frame f fps :
  silent lc → ∀ dets fds op w,
  wp (detection_loop self video_id lc frame f fps dets fds op) w
    (λ _ w', extends_inner w w') (λ _ w', extends_inner w w').
Proof.
  intros Hlc. induction dets as [|d dets IH]; intros fds op w; simpl.
  - apply wp_ret, extends_inner_refl.
  - apply wp_bind. destruct (op !! track_id d).
    + apply wp_ret, IH.
    + apply wp_bind, wp_lift.
      destruct (timestamp_ms f fps) as [ts|e]; [|apply extends_inner_refl].
      apply wp_bind, wp_emit, wp_bind.
      pose proof (extends_inner_event w (EvEnrich f (track_id d)) I) as H1.
      pose proof (process_tracked_object_inner self frame d (track_id d)
                    video_id ts (set_trace (λ t, t ++ [EvEnrich f (track_id d)]) w))
        as H2.
      pose proof (extends_inner_trans _ _ _ H1 H2) as H12.
      unfold wp at 1.
      destruct (_process_tracked_object _ _ _ _ _ _ _) as [[pi|e] w2]; [|done].
      simpl in H12. apply wp_bind.
      eapply wp_mono; [by apply when_set_silent | |].
      * intros [] w3 Htr. apply wp_ret.
        eapply wp_mono; [apply IH | |];
          intros ? w4 H4; simpl;
          (eapply extends_inner_trans; [|exact H4]);
          (eapply extends_inner_trans; [exact H12|]);
          by apply extends_inner_same.
      * intros e w3 Htr. simpl.
        eapply extends_inner_trans; [exact H12|]. by apply extends_inner_same.
Qed.

End MoreRules.

(** ** Track ids over a run *)

Lemma discipline_last P last n : id_discipline P last n → last = last_output P.
Proof.
  destruct 1 as [|P last n f ids n' _ _ _ _]; [done|].
  unfold last_output. by rewrite last_snoc.
Qed.

Lemma discipline_bound P last n :
  id_discipline P last n →
  1 ≤ n ∧ (∀ t, t ∈ last → 1 ≤ t < n) ∧
  ∀ (j : nat) f ids, P !! j = Some (f, ids) →
      NoDup ids ∧ ∀ t, t ∈ ids → 1 ≤ t < n.
Proof.
  induction 1 as [|P last n f ids n' _ (Hn & Hlast & Hall) Hle Hnd Hids].
  - split; [lia|]. split; [by intros t ?%elem_of_nil | done].
  - assert (Hnew : ∀ t, t ∈ ids → 1 ≤ t < n').
    { intros t Ht. destruct (Hids t Ht) as [Hl|?]; [|lia].
      specialize (Hlast t Hl). lia. }
    split; [lia|]. split; [done|].
    intros j g us Hj. apply lookup_app_Some in Hj as [Hj|[_ Hj]].
    + destruct (Hall j g us Hj) as [? Hb]. split; [done|].
      intros t Ht. specialize (Hb t Ht). lia.
    + apply list_lookup_singleton_Some in Hj as [_ [= <- <-]]. done.
Qed.

(** An id of an output is an id of the output just before, or larger
    than every id given until then. *)
Lemma discipline_carried P last n :
  id_discipline P last n →
  ∀ (j : nat) f ids g ids', P !! j = Some (f, ids) → P !! S j = Some (g, ids') →
  ∀ t, t ∈ ids' →
       t ∈ ids ∨ ∀ (i : nat) h us u, P !! i = Some (h, us) → (i ≤ j)%nat →
                                     u ∈ us → u < t.
Proof.
  induction 1 as [|P last n f0 ids0 n' Hdisc IH Hle Hnd Hids];
    intros j f ids g ids' Hj HSj t Ht; [done|].
  pose proof (lookup_lt_Some _ _ _ Hj) as Hlen.
  rewrite length_app in Hlen. simpl in Hlen.
  destruct (decide (S j < length P)%nat) as [Hin|Hlast].
  - rewrite lookup_app_l in Hj, HSj by lia.
    destruct (IH j f ids g ids' Hj HSj t Ht) as [?|Hbig]; [by left | right].
    intros i h us u Hi Hij. rewrite lookup_app_l in Hi by lia. by apply (Hbig i h us u).
  - assert (S j = length P) as HSjlen.
    { apply lookup_lt_Some in HSj. rewrite length_app in HSj. simpl in HSj. lia. }
    rewrite lookup_app_l in Hj by lia.
    rewrite lookup_app_r, HSjlen, Nat.sub_diag in HSj by lia.
    injection HSj as <- <-.
    assert (last = ids) as ->.
    { rewrite (discipline_last _ _ _ Hdisc). unfold last_output.
      rewrite last_lookup. replace (pred (length P)) with j by lia.
      by rewrite Hj. }
    destruct (Hids t Ht) as [?|Hfresh]; [by left | right].
    intros i h us u Hi Hij Hu. rewrite lookup_app_l in Hi by lia.
    destruct (discipline_bound _ _ _ Hdisc) as (_ & _ & Hall).
    destruct (Hall i h us Hi) as [_ Hb]. specialize (Hb u Hu). lia.
Qed.

(** A track that is missing from one output is missing from all later
    ones. *)
Lemma discipline_never_resumes P last n :
  id_discipline P last n →
  ∀ (i j k : nat) fi idsi fj idsj fk idsk t,
    (i < j)%nat → (j < k)%nat →
    P !! i = Some (fi, idsi) → P !! j = Some (fj, idsj) →
    P !! k = Some (fk, idsk) →
    t ∈ idsi → t ∉ idsj → t ∉ idsk.
Proof.
  intros Hdisc i j k. revert i j.
  induction k as [|k IH]; intros i j fi idsi fj idsj fk idsk t Hij Hjk Hi Hj Hk Hti Htj Htk;
    [lia|].
  destruct (lookup_lt_is_Some_2 P k) as [[fk' idsk'] Hk'].
  { apply lookup_lt_Some in Hk. lia. }
  destruct (discipline_carried _ _ _ Hdisc k fk' idsk' fk idsk Hk' Hk t Htk)
    as [Hprev|Hbig].
  - destruct (decide (j = k)) as [->|Hne].
    + rewrite Hj in Hk'. injection Hk' as <- <-. done.
    + refine (IH i j fi idsi fj idsj fk' idsk' t Hij _ Hi Hj Hk' Hti Htj Hprev).
      lia.
  - specialize (Hbig i fi idsi t Hi ltac:(lia) Hti). lia.
Qed.

Section Discipline.

Context {Frame : Type}.
Implicit Types (w : World Frame) (self : VideoProcessor Frame).

Lemma analyze_frame_discipline self video_id pc lc fps total frame st w :
  silent pc → silent lc →
  discipline_inv st w →
  wp (analyze_frame self video_id pc lc fps total frame st) w
    (λ st' w', discipline_inv st' w')
    (λ _ w', ∃ last n, id_discipline (produced_at (trace w')) last n).
Proof.
  intros Hpc Hlc Hinv. unfold discipline_inv in Hinv. unfold analyze_frame.
  apply wp_bind, wp_invoke.
  assert (Hdet : produced_at (trace w ++ [EvDetect (frame_num st)])
                 = produced_at (trace w)).
  { rewrite produced_at_app. simpl. by rewrite app_nil_r. }
  destruct (grounding_dino self (trace w) frame) as [ds|e].
  2:{ simpl. rewrite Hdet. by eexists _, _. }
  destruct (discipline_bound _ _ _ Hinv) as (_ & Hlast & _).
  assert (Hprev : ∀ p, p ∈ previous_detections st → track_id p < next_track_id st).
  { intros p Hp. apply Hlast. by apply list_elem_of_fmap_2. }
  destruct (assign_track_ids_facts ds _ _ Hprev) as (_ & Hn & Hnd & Hids).
  destruct (_assign_track_ids ds (previous_detections st) (next_track_id st))
    as [dets n'] eqn:Eassign. simpl in Hn, Hnd, Hids.
  assert (Hnew : id_discipline
                   (produced_at (trace w ++ [EvDetect (frame_num st)])
                      ++ [(frame_num st, track_id <$> dets)])
                   (track_id <$> dets) n').
  { rewrite Hdet. eapply discipline_next; [exact Hinv | lia | done |].
    intros t (p & -> & Hp)%list_elem_of_fmap.
    destruct (Hids p Hp) as [[? _]|?]; [by left | by right]. }
  apply wp_bind, wp_emit, wp_bind.
  eapply wp_mono; [by apply detection_loop_inner | |].
  2:{ intros e w2 Hext%extends_inner_produced. rewrite Hext. simpl.
      rewrite produced_at_app. simpl. by eexists _, _. }
  intros [fds op] w2 Hext%extends_inner_produced. simpl in Hext.
  rewrite produced_at_app in Hext. simpl in Hext.
  apply wp_bind, wp_lift.
  destruct (timestamp_ms (frame_num st) fps) as [ts|e];
    [|rewrite Hext; by eexists _, _].
  apply wp_bind.
  destruct pc as [cb|].
  - apply wp_bind, wp_lift.
    destruct (progress_percent _ _) as [p|e]; [|rewrite Hext; by eexists _, _].
    match goal with |- wp (cb ?a) _ _ _ => specialize (Hpc cb eq_refl a w2) end.
    unfold wp at 1. destruct (cb _ w2) as [[[]|e] w3]; simpl in Hpc.
    + apply wp_ret. unfold discipline_inv. simpl. by rewrite Hpc, Hext.
    + rewrite Hpc, Hext. by eexists _, _.
  - apply wp_ret, wp_ret. unfold discipline_inv. simpl. by rewrite Hext.
Qed.

Lemma process_video_discipline self video_id video_path pc lc w :
  silent pc → silent lc → trace w = [] →
  ∃ last n,
    id_discipline
      (produced_at (trace (process_video self video_id video_path pc lc w).2))
      last n.
Proof.
  intros Hpc Hlc Hnil.
  assert (Hwp : wp (process_video self video_id video_path pc lc) w
    (λ _ w', ∃ last n, id_discipline (produced_at (trace w')) last n)
    (λ _ w', ∃ last n, id_discipline (produced_at (trace w')) last n)).
  { unfold process_video.
    assert (Hstart : ∀ w', trace w' = [] →
              ∃ last n, id_discipline (produced_at (trace w')) last n).
    { intros w' ->. eexists _, _. apply discipline_start. }
    apply wp_bind.
    eapply wp_mono; [by apply when_set_silent | |
                     intros e w1 Htr; apply Hstart; congruence].
    intros [] w1 Htr1. simpl. apply wp_bind.
    eapply wp_mono; [by apply when_set_silent | |
                     intros e w2 Htr; apply Hstart; congruence].
    intros [] w2 Htr2. simpl. apply wp_bind.
    unfold cv2_VideoCapture at 1, wp at 1. apply wp_bind.
    eapply wp_mono; [apply (frame_loop_wp _ _ _ _ _ _ discipline_inv
                              (λ _ w', ∃ last n,
                                 id_discipline (produced_at (trace w')) last n)) | |].
    - done.
    - intros frame st w' Hinv. by apply analyze_frame_discipline.
    - unfold discipline_inv. simpl. rewrite Htr2, Htr1, Hnil.
      apply discipline_start.
    - intros st w3 Hinv. apply wp_bind, wp_modify, wp_ret. simpl.
      by eexists _, _.
    - done. }
  apply wp_run in Hwp. by destruct (process_video _ _ _ _ _ w).1.
Qed.

(** X5.  In a job run that starts from an empty trace, the ids of each
    tracker output are pairwise distinct and at least 1; an id of an
    output comes from the output just before it or is larger than every
    id given until then; so a track that is missing from one analyzed
    frame never comes back. *)
Theorem tracks_never_resume self video_id video_path w :
  trace w = [] →
  (∀ (j : nat) f ids,
     produced_at (trace (job_run self video_id video_path w).2) !! j
     = Some (f, ids) →
     NoDup ids ∧ ∀ t, t ∈ ids → 1 ≤ t) ∧
  (∀ (j : nat) f ids g ids',
     produced_at (trace (job_run self video_id video_path w).2) !! j
     = Some (f, ids) →
     produced_at (trace (job_run self video_id video_path w).2) !! S j
     = Some (g, ids') →
     ∀ t, t ∈ ids' →
          t ∈ ids ∨
          ∀ (i : nat) h us u,
            produced_at (trace (job_run self video_id video_path w).2) !! i
            = Some (h, us) → (i ≤ j)%nat → u ∈ us → u < t) ∧
  (∀ (i j k : nat) fi idsi fj idsj fk idsk t,
     (i < j)%nat → (j < k)%nat →
     produced_at (trace (job_run self video_id video_path w).2) !! i
     = Some (fi, idsi) →
     produced_at (trace (job_run self video_id video_path w).2) !! j
     = Some (fj, idsj) →
     produced_at (trace (job_run self video_id video_path w).2) !! k
     = Some (fk, idsk) →
     t ∈ idsi → t ∉ idsj → t ∉ idsk).
Proof.
  intros Hnil.
  destruct (job_callbacks_silent (Frame := Frame) video_id) as [Hpc Hlc].
  destruct (process_video_discipline self video_id video_path _ _ w Hpc Hlc Hnil)
    as (last & n & Hdisc).
  fold (job_run self video_id video_path) in Hdisc.
  split_and!.
  - intros j f ids Hj.
    destruct (discipline_bound _ _ _ Hdisc) as (_ & _ & Hall).
    destruct (Hall j f ids Hj) as [Hnd Hb]. split; [done|].
    intros t Ht. specialize (Hb t Ht). lia.
  - by apply (discipline_carried _ _ _ Hdisc).
  - by apply (discipline_never_resumes _ _ _ Hdisc).
Qed.

End Discipline.

Lemma tracks_never_resume_witness :
  produced_at (trace example_run.2) !! 1%nat = Some (5, [1]) ∧
  NoDup [1] ∧ ∀ t, t ∈ [1] → 1 ≤ t.
Proof.
  destruct (tracks_never_resume example_processor "v" (video_file "v" ".mp4")
              (example_started example_capture) eq_refl) as (H & _).
  assert (Hl : produced_at (trace example_run.2) !! 1%nat = Some (5, [1]))
    by by vm_compute.
  split; [exact Hl|]. exact (H 1%nat 5 [1] Hl).
Defined.

(** ** The detector's non-maximum suppression *)





Section Suppression.

Import GroundingDINOService.

Variable iou_threshold : Q.

Lemma insert_by_confidence_perm det l :
  insert_by_confidence det l ≡ₚ det :: l.
Proof.
  induction l as [|other rest IH]; simpl; [done|].
  destruct (Py.lt _ _); [|done]. rewrite IH. apply Permutation_swap.
Qed.

Lemma sorted_by_confidence_perm l : sorted_by_confidence l ≡ₚ l.
Proof.
  induction l as [|d l IH]; simpl; [done|].
  by rewrite insert_by_confidence_perm, IH.
Qed.

Lemma insert_by_confidence_sorted det l :
  StronglySorted by_confidence l →
  StronglySorted by_confidence (insert_by_confidence det l).
Proof.
  induction 1 as [|other rest Hrest IH Hall]; simpl.
  - repeat constructor.
  - destruct (PyFacts.lt_spec (confidence det) (confidence other)) as [Hlt|Hge].
    + constructor; [done|].
      rewrite insert_by_confidence_perm. constructor; [|done].
      unfold by_confidence. lra.
    + constructor; [by constructor|]. constructor.
      * unfold by_confidence. lra.
      * eapply Forall_impl; [exact Hall|]. unfold by_confidence.
        intros e He. lra.
Qed.

Lemma sorted_by_confidence_sorted l :
  StronglySorted by_confidence (sorted_by_confidence l).
Proof.
  induction l as [|d l IH]; simpl; [constructor|].
  by apply insert_by_confidence_sorted.
Qed.

(** Sorting what is sorted changes nothing. *)
Lemma sorted_by_confidence_id l :
  StronglySorted by_confidence l → sorted_by_confidence l = l.
Proof.
  induction 1 as [|d l Hl IH Hall]; simpl; [done|].
  rewrite IH. destruct l as [|other rest]; [done|]. simpl.
  apply Forall_cons in Hall as [Hd _]. unfold by_confidence in Hd.
  destruct (PyFacts.lt_spec (confidence d) (confidence other)); [lra | done].
Qed.

Lemma should_keep_spec det keep :
  should_keep det keep iou_threshold = true ↔
  ∀ kept, kept ∈ keep → compatible iou_threshold det kept.
Proof.
  induction keep as [|k keep IH]; simpl.
  - split; [by intros _ kept ?%elem_of_nil | done].
  - unfold compatible at 1.
    destruct (PyFacts.lt_spec iou_threshold
                (_calculate_iou (bbox det) (bbox k))) as [Hlt|Hge].
    + destruct (String.eqb_spec (label det) (label k)) as [Heq|Hne]; simpl.
      * split; [done|]. intros H.
        destruct (H k ltac:(by left)) as [?|[? _]]; [lra | done].
      * destruct (PyFacts.lt_spec GOOD_CONFIDENCE (confidence det)) as [Hc|Hc].
        -- rewrite IH. split.
           ++ intros H kept [->|Hin]%elem_of_cons; [by right | by apply H].
           ++ intros H kept Hin. apply H. by right.
        -- split; [done|]. intros H.
           destruct (H k ltac:(by left)) as [?|[_ ?]]; lra.
    + rewrite IH. split.
      * intros H kept [->|Hin]%elem_of_cons; [left; lra | by apply H].
      * intros H kept Hin. apply H. by right.
Qed.

Lemma should_keep_false det keep :
  should_keep det keep iou_threshold = false →
  ∃ k, k ∈ keep ∧ ¬ compatible iou_threshold det k.
Proof.
  induction keep as [|k keep IH]; simpl; [done|].
  destruct (PyFacts.lt_spec iou_threshold
              (_calculate_iou (bbox det) (bbox k))) as [Hlt|Hge].
  - destruct (String.eqb_spec (label det) (label k)) as [Heq|Hne]; simpl.
    + intros _. exists k. split; [by left|].
      intros [?|[? _]]; [lra | done].
    + destruct (PyFacts.lt_spec GOOD_CONFIDENCE (confidence det)) as [Hc|Hc].
      * intros (k' & ? & ?)%IH. exists k'. split; [by right | done].
      * intros _. exists k. split; [by left|]. intros [?|[_ ?]]; lra.
  - intros (k' & ? & ?)%IH. exists k'. split; [by right | done].
Qed.

Lemma separated_nil : separated iou_threshold [].
Proof. intros pre det post H. by destruct pre. Qed.

Lemma separated_snoc keep det :
  separated iou_threshold keep →
  should_keep det keep iou_threshold = true →
  separated iou_threshold (keep ++ [det]).
Proof.
  intros Hsep Hkeep pre d post Heq kept Hin.
  destruct post as [|e post _] using rev_ind.
  - apply app_inj_tail in Heq as [<- <-].
    exact (proj1 (should_keep_spec _ _) Hkeep kept Hin).
  - rewrite app_comm_cons, app_assoc in Heq.
    apply app_inj_tail in Heq as [-> _]. by apply (Hsep pre d post).
Qed.

(** What the outer loop returns: [keep], then a selection of the
    detections, each compatible with everything kept before it. *)
Lemma nms_loop_spec l : ∀ keep,
  separated iou_threshold keep →
  ∃ kept,
    nms_loop l keep iou_threshold = keep ++ kept ∧
    sublist kept l ∧
    separated iou_threshold (keep ++ kept) ∧
    ∀ det, det ∈ l →
      det ∈ kept ∨
      ∃ k, k ∈ keep ++ kept ∧ ¬ compatible iou_threshold det k ∧
           (k ∈ keep ∨ ∃ l1 l2 l3, l = l1 ++ k :: l2 ++ det :: l3).
Proof.
  induction l as [|d l IH]; intros keep Hsep; simpl.
  - exists []. rewrite app_nil_r. split_and!; [done | done | done |].
    by intros det ?%elem_of_nil.
  - destruct (should_keep d keep iou_threshold) eqn:Hk.
    + destruct (IH (keep ++ [d]) (separated_snoc _ _ Hsep Hk))
        as (kept & Heq & Hsub & Hsep' & Hdom).
      exists (d :: kept). rewrite Heq, <- app_assoc. simpl.
      split_and!; [done | by constructor | by rewrite <- app_assoc in Hsep' |].
      intros det [->|Hin]%elem_of_cons; [left; by left|].
      destruct (Hdom det Hin) as [?|(k & Hkin & Hnc & Hwhere)];
        [left; by right | right].
      exists k. rewrite <- app_assoc in Hkin. simpl in Hkin.
      split_and!; [done | done |].
      destruct Hwhere as [[?|Hkd%list_elem_of_singleton]%elem_of_app
                         |(l1 & l2 & l3 & ->)].
      * by left.
      * right. subst k. apply list_elem_of_split in Hin as (l2 & l3 & ->).
        by exists [], l2, l3.
      * right. by exists (d :: l1), l2, l3.
    + destruct (IH keep Hsep) as (kept & Heq & Hsub & Hsep' & Hdom).
      exists kept. split_and!; [done | by constructor | done |].
      intros det [->|Hin]%elem_of_cons.
      * right.
        destruct (should_keep_false _ _ Hk) as (k & Hkin & Hnc).
        exists k. split_and!; [apply elem_of_app; by left | done | by left].
      * destruct (Hdom det Hin) as [?|(k & Hkin & Hnc & Hwhere)];
          [by left | right].
        exists k. split_and!; [done | done |].
        destruct Hwhere as [?|(l1 & l2 & l3 & ->)]; [by left | right].
        by exists (d :: l1), l2, l3.
Qed.




Lemma sorted_app (l1 l2 : list Detection) a b :
  StronglySorted by_confidence (l1 ++ l2) → a ∈ l1 → b ∈ l2 →
  by_confidence a b.
Proof.
  induction l1 as [|e l1 IH]; simpl; intros Hs Ha Hb.
  - by apply elem_of_nil in Ha.
  - apply StronglySorted_inv in Hs as [Hs Hall].
    apply elem_of_cons in Ha as [->|Ha]; [|by apply IH].
    rewrite Forall_forall in Hall. apply Hall, elem_of_app. by right.
Qed.


Lemma sublist_sorted (l1 l2 : list Detection) :
  sublist l1 l2 → StronglySorted by_confidence l2 →
  StronglySorted by_confidence l1.
Proof.
  induction 1 as [|d l1 l2 Hsub IH|d l1 l2 Hsub IH]; intros Hs.
  - constructor.
  - apply StronglySorted_inv in Hs as [Hs Hall]. constructor; [by apply IH|].
    apply Forall_forall. intros e He. rewrite Forall_forall in Hall.
    apply Hall. by apply (sublist_subseteq _ _ Hsub).
  - apply StronglySorted_inv in Hs as [Hs _]. by apply IH.
Qed.

Lemma apply_nms_unfold detections :
  _apply_nms detections iou_threshold =
  nms_loop (sorted_by_confidence detections) [] iou_threshold.
Proof. by destruct detections. Qed.

(** The facts about [_apply_nms] the statements below are read from. *)
Lemma apply_nms_spec detections :
  sublist (_apply_nms detections iou_threshold)
          (sorted_by_confidence detections) ∧
  StronglySorted by_confidence (_apply_nms detections iou_threshold) ∧
  separated iou_threshold (_apply_nms detections iou_threshold) ∧
  ∀ det, det ∈ detections →
    det ∈ _apply_nms detections iou_threshold ∨
    ∃ k, k ∈ _apply_nms detections iou_threshold ∧
         ¬ compatible iou_threshold det k ∧
         (confidence det <= confidence k)%Q.
Proof.
  rewrite apply_nms_unfold.
  destruct (nms_loop_spec (sorted_by_confidence detections) [] separated_nil)
    as (kept & -> & Hsub & Hsep & Hdom). simpl in *.
  pose proof (sorted_by_confidence_sorted detections) as Hsorted.
  split_and!; [done | by eapply sublist_sorted | done |].
  intros det Hin. rewrite <- sorted_by_confidence_perm in Hin.
  destruct (Hdom det Hin) as [?|(k & Hk & Hnc & [[]%elem_of_nil|Hwhere])];
    [by left | right].
  exists k. split_and!; [done | done |].
  destruct Hwhere as (l1 & l2 & l3 & Heq). rewrite Heq in Hsorted.
  replace (l1 ++ k :: l2 ++ det :: l3) with ((l1 ++ k :: l2) ++ det :: l3)
    in Hsorted by by rewrite <- app_assoc.
  apply (sorted_app _ _ k det Hsorted); [|by left].
  apply elem_of_app. right. by left.
Qed.

Lemma nms_loop_fixed rest : ∀ keep,
  separated iou_threshold (keep ++ rest) →
  nms_loop rest keep iou_threshold = keep ++ rest.
Proof.
  induction rest as [|d rest IH]; intros keep Hsep; simpl.
  - by rewrite app_nil_r.
  - assert (should_keep d keep iou_threshold = true) as ->.
    { apply should_keep_spec. intros kept Hin.
      by apply (Hsep keep d rest). }
    rewrite IH; [by rewrite <- app_assoc|]. by rewrite <- app_assoc.
Qed.

(** X7.  Of a non-empty list of detections, suppression keeps at least the
    one with the highest confidence (the earliest of them in the list
    when several share it), and returns it first; what it returns is
    a selection of the detections in order of decreasing confidence. *)
Theorem nms_keeps_best (detections : list Detection) :
  detections ≠ [] →
  ∃ best rest,
    _apply_nms detections iou_threshold = best :: rest ∧
    head (sorted_by_confidence detections) = Some best ∧
    best ∈ detections ∧
    (∀ det, det ∈ detections → (confidence det <= confidence best)%Q) ∧
    StronglySorted by_confidence (best :: rest) ∧
    (∀ det, det ∈ rest → det ∈ detections).
Proof.
  intros Hne.
  destruct (apply_nms_spec detections) as (Hsub & Hsorted & _ & _).
  pose proof (sorted_by_confidence_perm detections) as Hperm.
  pose proof (sorted_by_confidence_sorted detections) as Hs.
  rewrite apply_nms_unfold in *.
  destruct (sorted_by_confidence detections) as [|best l] eqn:El.
  { apply Permutation_nil_l in Hperm. by subst. }
  simpl in *.
  destruct (nms_loop_spec l [best]) as (kept & Heq & Hsubk & _).
  { intros pre d post Hpd kept Hin.
    destruct pre; [by apply elem_of_nil in Hin|].
    destruct pre; discriminate. }
  rewrite Heq in *. simpl in *. exists best, kept.
  split_and!; [done | done | | | done |].
  - rewrite <- Hperm. by left.
  - intros det Hin. rewrite <- Hperm in Hin.
    apply StronglySorted_inv in Hs as [_ Hall].
    apply elem_of_cons in Hin as [->|Hin]; [apply Qle_refl|].
    rewrite Forall_forall in Hall. by apply Hall.
  - intros det Hin. rewrite <- Hperm. right.
    by apply (sublist_subseteq _ _ Hsubk).
Qed.



(** X10.  Suppressing twice is suppressing once. *)
Theorem nms_idempotent (detections : list Detection) :
  _apply_nms (_apply_nms detections iou_threshold) iou_threshold =
  _apply_nms detections iou_threshold.
Proof.
  destruct (apply_nms_spec detections) as (_ & Hsorted & Hsep & _).
  rewrite (apply_nms_unfold (_apply_nms _ _)).
  rewrite (sorted_by_confidence_id _ Hsorted).
  by rewrite nms_loop_fixed.
Qed.

End Suppression.

Lemma nms_keeps_best_witness :
  ∃ best rest,
    GroundingDINOService._apply_nms [cup_again; cup]
      GroundingDINOService.NMS_THRESHOLD = best :: rest ∧
    head (GroundingDINOService.sorted_by_confidence [cup_again; cup])
      = Some best ∧
    best ∈ [cup_again; cup] ∧
    (∀ det, det ∈ [cup_again; cup] → (confidence det <= confidence best)%Q) ∧
    StronglySorted GroundingDINOService.by_confidence (best :: rest) ∧
    (∀ det, det ∈ rest → det ∈ [cup_again; cup]).
Proof.
  apply (nms_keeps_best GroundingDINOService.NMS_THRESHOLD [cup_again; cup]).
  discriminate.
Defined.



(** ** Suppression followed by tracking *)

Section SuppressThenTrack.

Import GroundingDINOService.


End SuppressThenTrack.


(** ** The job as a whole *)

Section Lifecycle.

Context {Frame : Type}.
Implicit Types (w : World Frame) (self : VideoProcessor Frame).

Lemma job_frame_set_trace video_id f w0 w :
  job_frame video_id w0 w → job_frame video_id w0 (set_trace f w).
Proof. done. Qed.

Lemma update_status_frame video_id (f : Status.t → Status.t) w0 w :
  job_frame video_id w0 w →
  (∀ s, (length (Status.logs s) ≤ 50)%nat →
        (length (Status.logs (f s)) ≤ 50)%nat) →
  wp (update_status video_id f) w
    (λ _ w', job_frame video_id w0 w' ∧ trace w' = trace w)
    (λ _ _, False).
Proof.
  intros ((s & Hs & Hlen) & Hother & Htf & Hvf & Hbt) Hf.
  eapply wp_update_status; [exact Hs|]. split; [|done].
  split_and!; simpl; try done.
  - exists (f s). rewrite lookup_insert_eq. split; [done | by apply Hf].
  - intros other Hne. rewrite lookup_insert_ne by done. by apply Hother.
Qed.

Lemma log_message_frame video_id line w0 w :
  job_frame video_id w0 w →
  wp (log_message video_id line) w
    (λ _ w', job_frame video_id w0 w' ∧ trace w' = trace w) (λ _ _, False).
Proof.
  intros H. apply update_status_frame; [done|].
  intros s _. simpl. apply append_log_length.
Qed.

Lemma update_progress_frame video_id args w0 w :
  job_frame video_id w0 w →
  wp (update_progress video_id args) w
    (λ _ w', job_frame video_id w0 w' ∧ trace w' = trace w) (λ _ _, False).
Proof. intros H. destruct args. by apply update_status_frame. Qed.

Lemma process_tracked_object_frame self frame d t video_id ts v w0 w :
  job_frame v w0 w →
  wp (_process_tracked_object self frame d t video_id ts) w
    (λ _ w', job_frame v w0 w') (λ _ w', job_frame v w0 w').
Proof.
  intros H. unfold _process_tracked_object.
  apply wp_try, wp_bind, wp_invoke.
  destruct (segmentation_service self _ _ _ _ _) as [mask|e].
  - apply wp_bind, wp_invoke.
    destruct (product_search self _ _ _) as [ps|e]; [by apply wp_ret|].
    apply wp_bind, wp_invoke.
    by destruct (product_search self _ _ _) as [ps|e']; [apply wp_ret|].
  - apply wp_bind, wp_invoke.
    by destruct (product_search self _ _ _) as [ps|e']; [apply wp_ret|].
Qed.

Lemma detection_loop_frame self video_id frame f fps w0 :
  ∀ dets fds op w,
  job_frame video_id w0 w →
  wp (detection_loop self video_id (Some (log_message video_id)) frame
        f fps dets fds op) w
    (λ _ w', job_frame video_id w0 w') (λ _ w', job_frame video_id w0 w').
Proof.
  induction dets as [|d dets IH]; intros fds op w Hw; simpl.
  - by apply wp_ret.
  - apply wp_bind. destruct (op !! track_id d).
    + apply wp_ret. by apply IH.
    + apply wp_bind, wp_lift.
      destruct (timestamp_ms f fps) as [ts|e]; [|done].
      apply wp_bind, wp_emit, wp_bind.
      eapply wp_mono;
        [apply (process_tracked_object_frame _ _ _ _ _ _ video_id w0);
         by apply job_frame_set_trace | | done].
      intros pi w1 Hw1. simpl. apply wp_bind.
      eapply wp_mono; [apply (log_message_frame _ _ w0); exact Hw1 | | done].
      intros [] w2 [Hw2 _]. apply wp_ret. by apply IH.
Qed.

Lemma analyze_frame_frame self video_id fps total frame st w0 w :
  job_frame video_id w0 w →
  wp (analyze_frame self video_id (Some (update_progress video_id))
        (Some (log_message video_id)) fps total frame st) w
    (λ _ w', job_frame video_id w0 w') (λ _ w', job_frame video_id w0 w').
Proof.
  intros Hw. unfold analyze_frame.
  apply wp_bind, wp_invoke.
  destruct (grounding_dino self (trace w) frame) as [ds|e]; [|done].
  destruct (_assign_track_ids _ _ _) as [dets n].
  apply wp_bind, wp_emit, wp_bind.
  eapply wp_mono; [apply (detection_loop_frame _ _ _ _ _ w0); done | | done].
  intros [fds op] w1 Hw1. simpl.
  apply wp_bind, wp_lift.
  destruct (timestamp_ms (frame_num st) fps) as [ts|e]; [|done].
  apply wp_bind, wp_bind, wp_lift.
  destruct (progress_percent (frame_num st) total) as [p|e]; [|done].
  eapply wp_mono; [apply (update_status_frame _ _ w0); [exact Hw1 | done] | | done].
  intros [] w2 [Hw2 _]. by apply wp_ret.
Qed.

Lemma frame_loop_frame self video_id fps total w0 : ∀ fs st w,
  job_frame video_id w0 w →
  wp (frame_loop self video_id (Some (update_progress video_id))
        (Some (log_message video_id)) fps total fs st) w
    (λ _ w', job_frame video_id w0 w') (λ _ w', job_frame video_id w0 w').
Proof.
  intros fs st w Hw.
  apply (frame_loop_wp self video_id _ _ fps total
           (λ _ w', job_frame video_id w0 w')); [done | | done].
  intros frame st' w' Hw'. by apply analyze_frame_frame.
Qed.

(** The run of a registered job, from the frame loop on. *)
Lemma job_run_opened self video_id video_path w s
    (Q : Artifact.t → World Frame → Prop) E :
  processing_status w !! video_id = Some s →
  (∀ w1,
     job_frame video_id w w1 → trace w1 = trace w →
     processing_status w1 !! video_id = Some (opened_status video_id s) →
     let cap := default closed_capture (video_files w !! video_path) in
     wp (frame_loop self video_id (Some (update_progress video_id))
           (Some (log_message video_id)) (CAP_PROP_FPS cap)
           (Py.int (CAP_PROP_FRAME_COUNT cap)) (frames_read cap)
           (mkLocals ∅ ∅ 0 0 1 [])) w1
        (λ st w2,
           Q (Artifact.mk video_id (CAP_PROP_FPS cap)
                (Py.int (CAP_PROP_FRAME_COUNT cap))
                (tracks_by_frame st) (object_products st))
             (set_tracking_files
                (insert (tracking_path video_id)
                   (Artifact.mk video_id (CAP_PROP_FPS cap)
                      (Py.int (CAP_PROP_FRAME_COUNT cap))
                      (tracks_by_frame st) (object_products st))) w2))
        E) →
  wp (job_run self video_id video_path) w Q E.
Proof.
  intros Hs Hloop. unfold job_run, process_video, when_set, log_message.
  apply wp_bind. eapply wp_update_status; [exact Hs|].
  apply wp_bind. eapply wp_update_status; [simpl; by rewrite lookup_insert_eq|].
  apply wp_bind. unfold cv2_VideoCapture at 1, wp at 1. simpl.
  apply wp_bind. eapply wp_mono; [apply Hloop | | done].
  - split_and!; simpl; try done.
    + eexists. rewrite lookup_insert_eq. split; [done|]. simpl.
      apply append_log_length.
    + intros other Hne. by rewrite !lookup_insert_ne.
  - done.
  - simpl. by rewrite lookup_insert_eq.
  - intros st w3 HQ. simpl in *.
    apply wp_bind. apply wp_modify. by apply wp_ret.
Qed.

(** What a run leaves: the tracking file when it returns, nothing but
    its record and the trace when it raises. *)
Lemma job_run_frame self video_id video_path w :
  registered video_id w →
  wp (job_run self video_id video_path) w
    (λ a w', Artifact.video_id a = video_id ∧
             ∃ w2, job_frame video_id w w2 ∧
                   w' = set_tracking_files
                          (insert (tracking_path video_id) a) w2)
    (λ _ w', job_frame video_id w w').
Proof.
  intros [s Hs]. eapply job_run_opened; [exact Hs|].
  intros w1 Hw1 _ _ cap.
  eapply wp_mono; [by apply frame_loop_frame | | done].
  intros st w2 Hw2. simpl. split; [done|]. by exists w2.
Qed.

Lemma job_run_registered self video_id video_path w :
  registered video_id w →
  ∃ s1, processing_status (job_run self video_id video_path w).2 !! video_id
        = Some s1 ∧ (length (Status.logs s1) ≤ 50)%nat.
Proof.
  intros Hreg. pose proof (job_run_frame self video_id video_path w Hreg) as H.
  unfold wp in H.
  destruct (job_run self video_id video_path w) as [[a|e] w1]; simpl.
  - by destruct H as (_ & w2 & (Hs & _) & ->).
  - by destruct H as (Hs & _).
Qed.

(** The job, in terms of the run inside it. *)
Lemma task_unfold self video_id video_path w s1 :
  registered video_id w →
  processing_status (job_run self video_id video_path w).2 !! video_id
  = Some s1 →
  process_video_task self video_id video_path w
  = (Return (),
     set_processing_status
       (insert video_id
          (final_status (job_run self video_id video_path w).1 s1))
       (job_run self video_id video_path w).2).
Proof.
  intros [s Hs] Hs1.
  unfold process_video_task, try_except, mbind at 1, M_bind at 1.
  rewrite (update_status_present _ _ _ _ Hs). simpl.
  rewrite (update_status_same _ _ _ Hs).
  fold (job_run self video_id video_path).
  unfold mbind, M_bind.
  destruct (job_run self video_id video_path w) as [[a|e] w1]; simpl in *;
    by rewrite (update_status_present _ _ _ _ Hs1).
Qed.

(** X12.  Whatever the collaborators do, the job of a registered video
    returns, and leaves the record completed when the run returned and
    failed, with the error in the message, when it raised.  The record
    then holds at most 50 log lines.  The job touches no other record,
    no video and not the task queue; it writes its tracking file when
    it completes and no file when it fails. *)
Theorem job_ends_terminal self video_id video_path w :
  registered video_id w →
  ∃ w' s',
    process_video_task self video_id video_path w = (Return (), w') ∧
    processing_status w' !! video_id = Some s' ∧
    (length (Status.logs s') ≤ 50)%nat ∧
    (∀ other, other ≠ video_id →
       processing_status w' !! other = processing_status w !! other) ∧
    video_files w' = video_files w ∧
    background_tasks w' = background_tasks w ∧
    match (job_run self video_id video_path w).1 with
    | Return a =>
        Status.status s' = "completed" ∧ Status.progress s' = 100%Q ∧
        Status.message s' = "Video processing completed successfully" ∧
        tracking_files w'
        = <[tracking_path video_id := a]> (tracking_files w)
    | Raise e =>
        Status.status s' = "failed" ∧ Status.progress s' = 0%Q ∧
        Status.message s' = "Processing failed: " +:+ str e ∧
        tracking_files w' = tracking_files w
    end.
Proof.
  intros Hreg.
  destruct (job_run_registered self video_id video_path w Hreg)
    as (s1 & Hs1 & Hlen).
  pose proof (task_unfold self video_id video_path w s1 Hreg Hs1) as Htask.
  pose proof (job_run_frame self video_id video_path w Hreg) as H.
  unfold wp in H.
  destruct (job_run self video_id video_path w) as [[a|e] w1]; simpl in *;
    eexists _, _; (split; [exact Htask|]).
  - destruct H as (_ & w2 & (_ & Hother & Htf & Hvf & Hbt) & ->).
    simpl in *. rewrite lookup_insert_eq.
    split; [reflexivity|]. split; [exact Hlen|]. split.
    { intros other Hne. rewrite lookup_insert_ne by done. by apply Hother. }
    split; [done|]. split; [done|]. by rewrite Htf.
  - destruct H as (_ & Hother & Htf & Hvf & Hbt).
    simpl. rewrite lookup_insert_eq.
    split; [reflexivity|]. split; [exact Hlen|]. split.
    { intros other Hne. rewrite lookup_insert_ne by done. by apply Hother. }
    done.
Qed.

(** X13.  Started for a video that has no record, the job raises the
    [KeyError] of its own handler and changes nothing. *)
Theorem unregistered_job_raises self video_id video_path w :
  processing_status w !! video_id = None →
  process_video_task self video_id video_path w
  = (Raise (KeyError ("'" +:+ video_id +:+ "'")), w).
Proof.
  intros Hnone.
  unfold process_video_task, try_except, mbind, M_bind, update_status.
  rewrite Hnone. simpl. by rewrite Hnone.
Qed.

(** X14.  After a job whose run returned, [get_tracking_data] serves the
    file of this run, and the status query answers completed even
    when the registry has been lost.  After a job whose run raised,
    [get_tracking_data] answers what it answered before the job, and
    the status query reports the failure. *)
Theorem tracking_after_job self video_id video_path w :
  registered video_id w →
  let w' := (process_video_task self video_id video_path w).2 in
  match (job_run self video_id video_path w).1 with
  | Return a =>
      get_tracking_data video_id w' = (Return a, w') ∧
      Artifact.video_id a = video_id ∧
      get_processing_status video_id (restarted w')
      = (Return (ProcessStatusResponse.mk video_id "completed" 100
                   "Video processing completed" []), restarted w')
  | Raise e =>
      (get_tracking_data video_id w').1 = (get_tracking_data video_id w).1 ∧
      ∃ logs,
        get_processing_status video_id w'
        = (Return (ProcessStatusResponse.mk video_id "failed" 0
                     ("Processing failed: " +:+ str e) logs), w')
  end.
Proof.
  intros Hreg.
  destruct (job_run_registered self video_id video_path w Hreg)
    as (s1 & Hs1 & _).
  rewrite (task_unfold _ _ _ _ _ Hreg Hs1).
  pose proof (job_run_frame self video_id video_path w Hreg) as H.
  unfold wp in H.
  unfold get_tracking_data, get_processing_status, restarted, get, mbind,
    M_bind, mret, M_ret, raise.
  destruct (job_run self video_id video_path w) as [[a|e] w1]; simpl in *.
  - destruct H as (Hid & w2 & _ & ->). simpl.
    by rewrite lookup_insert_eq, lookup_empty.
  - destruct H as (_ & _ & -> & _).
    split; [by destruct (tracking_files w !! tracking_path video_id)|].
    rewrite lookup_insert_eq. by eexists.
Qed.

End Lifecycle.

Lemma job_ends_terminal_witness :
  ∃ w', process_video_task failing_detector "v" (video_file "v" ".mp4")
          (example_started example_capture) = (Return (), w') ∧
        Status.status <$> processing_status w' !! "v" = Some "failed".
Proof.
  destruct (job_ends_terminal failing_detector "v" (video_file "v" ".mp4")
              (example_started example_capture))
    as (w' & s' & Htask & Hs' & _ & _ & _ & _ & Hend).
  - by exists fresh_status.
  - exists w'. split; [exact Htask|]. rewrite Hs'. simpl.
    destruct (job_run failing_detector "v" (video_file "v" ".mp4")
                (example_started example_capture)).1 as [a|e] eqn:E.
    + vm_compute in E. discriminate.
    + destruct Hend as (-> & _). reflexivity.
Defined.

Lemma unregistered_job_raises_witness :
  process_video_task example_processor "v" (video_file "v" ".mp4")
    (example_world example_capture)
  = (Raise (KeyError "'v'"), example_world example_capture).
Proof.
  apply (unregistered_job_raises example_processor "v" (video_file "v" ".mp4")
           (example_world example_capture)).
  reflexivity.
Defined.

Lemma tracking_after_job_witness :
  ∃ a, get_tracking_data "v" (example_job example_processor example_capture)
       = (Return a, example_job example_processor example_capture) ∧
       Artifact.video_id a = "v".
Proof.
  pose proof (tracking_after_job example_processor "v" (video_file "v" ".mp4")
                (example_started example_capture)
                (ex_intro _ fresh_status eq_refl)) as H.
  cbv zeta in H. fold (example_job example_processor example_capture) in H.
  destruct (job_run example_processor "v" (video_file "v" ".mp4")
              (example_started example_capture)).1 as [a|e] eqn:E.
  - exists a. destruct H as (H1 & H2 & _). split; [exact H1 | exact H2].
  - vm_compute in E. discriminate.
Defined.

(** ** Starting a job: which file is taken *)

Section Start.

Context {Frame : Type}.
Implicit Types (w : World Frame) (self : VideoProcessor Frame).

Lemma find_video_spec (files : gmap string (VideoCapture Frame))
    video_id exts :
  match find_video files video_id exts with
  | Some path =>
      ∃ (i : nat) ext,
        exts !! i = Some ext ∧ path = video_file video_id ext ∧
        is_Some (files !! path) ∧
        ∀ (j : nat) e, (j < i)%nat → exts !! j = Some e →
               files !! video_file video_id e = None
  | None => ∀ ext, ext ∈ exts → files !! video_file video_id ext = None
  end.
Proof.
  induction exts as [|ext exts IH]; simpl.
  - by intros ext ?%elem_of_nil.
  - destruct (files !! video_file video_id ext) eqn:E.
    + exists 0%nat, ext. split_and!; [done | done | by rewrite E |].
      intros j e Hj. lia.
    + destruct (find_video files video_id exts) as [path|].
      * destruct IH as (i & ext' & Hi & -> & Hex & Hbefore).
        exists (S i), ext'. split_and!; [done | done | done |].
        intros [|j] e Hj He; simpl in He; [by injection He as <-|].
        apply (Hbefore j); [lia | done].
      * intros e [->|He]%elem_of_cons; [done | by apply IH].
Qed.

Lemma find_video_first (files : gmap string (VideoCapture Frame))
    video_id exts (i : nat) ext :
  exts !! i = Some ext →
  is_Some (files !! video_file video_id ext) →
  (∀ (j : nat) e, (j < i)%nat → exts !! j = Some e →
          files !! video_file video_id e = None) →
  find_video files video_id exts = Some (video_file video_id ext).
Proof.
  revert i. induction exts as [|e0 exts IH]; intros i Hi [c Hc] Hbefore.
  - done.
  - simpl. destruct i as [|i]; simpl in Hi.
    + injection Hi as ->. by rewrite Hc.
    + rewrite (Hbefore 0%nat e0) by (done || lia).
      apply (IH i); [done | by exists c |].
      intros j e Hj He. apply (Hbefore (S j)); [lia | done].
Qed.

(** X15.  Without a file under any of the five extensions, a start raises
    404 and changes nothing, whatever the registry holds for the
    video, a record in state processing included. *)
Theorem start_without_video w video_id :
  (∀ ext, ext ∈ VIDEO_EXTENSIONS →
     video_files w !! video_file video_id ext = None) →
  start_processing video_id w
  = (Raise (HTTPException 404 "Video not found"), w).
Proof.
  intros Hnone.
  pose proof (find_video_spec (video_files w) video_id VIDEO_EXTENSIONS) as H.
  unfold start_processing, get, mbind, M_bind, raise.
  destruct (find_video _ _ _) as [path|]; [|done].
  destruct H as (i & ext & Hi & -> & [c Hc] & _).
  rewrite Hnone in Hc; [done|]. by eapply list_elem_of_lookup_2.
Qed.

(** X16.  When the video is there under several extensions, the job is
    queued for the first of [.mp4], [.mov], [.avi], [.webm], [.mkv]
    that exists. *)
Theorem start_picks_first_extension w video_id (i : nat) ext :
  VIDEO_EXTENSIONS !! i = Some ext →
  is_Some (video_files w !! video_file video_id ext) →
  (∀ (j : nat) e, (j < i)%nat → VIDEO_EXTENSIONS !! j = Some e →
          video_files w !! video_file video_id e = None) →
  (∀ s, processing_status w !! video_id = Some s →
        Status.status s ≠ "processing") →
  ∃ w',
    start_processing video_id w
    = (Return (Started "Video processing started" video_id), w') ∧
    background_tasks w'
    = background_tasks w ++ [(video_id, video_file video_id ext)] ∧
    processing_status w' !! video_id = Some fresh_status.
Proof.
  intros Hi Hex Hbefore Hs.
  pose proof (find_video_first _ _ _ _ _ Hi Hex Hbefore) as Hfind.
  rewrite (start_otherwise w video_id _ Hfind Hs).
  eexists. split; [done|]. simpl. by rewrite lookup_insert_eq.
Qed.

End Start.

Lemma start_without_video_witness :
  start_processing "w" (example_started example_capture)
  = (Raise (HTTPException 404 "Video not found"),
     example_started example_capture).
Proof.
  apply (start_without_video (example_started example_capture) "w").
  intros ext _. reflexivity.
Defined.

Lemma start_picks_first_extension_witness :
  ∃ w', start_processing "v" two_files_world
        = (Return (Started "Video processing started" "v"), w') ∧
        background_tasks w' = [("v", video_file "v" ".mov")].
Proof.
  destruct (start_picks_first_extension two_files_world "v" 1 ".mov")
    as (w' & H1 & H2 & _).
  - reflexivity.
  - by exists example_capture.
  - intros [|j] e Hj He; [|lia]. injection He as <-. reflexivity.
  - intros s Hs. vm_compute in Hs. discriminate.
  - exists w'. split; [exact H1 | exact H2].
Defined.

(** ** A source without a frame count *)

Section FrameCount.

Context {Frame : Type}.
Implicit Types (w : World Frame) (self : VideoProcessor Frame).

Lemma analyze_frame_zero_total self video_id fps frame st w :
  detector_total self → search_total self → ¬ (fps == 0)%Q →
  registered video_id w →
  wp (analyze_frame self video_id (Some (update_progress video_id))
        (Some (log_message video_id)) fps 0 frame st) w
    (λ _ _, False)
    (λ e _, e = ZeroDivisionError "division by zero").
Proof.
  intros Hdet Hsearch Hfps Hreg. unfold analyze_frame.
  apply wp_bind, wp_invoke. destruct (Hdet (trace w) frame) as [ds ->].
  destruct (_assign_track_ids _ _ _) as [dets n].
  apply wp_bind, wp_emit, wp_bind.
  eapply wp_mono; [by apply detection_loop_returns | | done].
  intros [fds op] w1 Hreg1. simpl.
  apply wp_bind, wp_lift. rewrite timestamp_nonzero_fps by done.
  by apply wp_bind, wp_bind, wp_lift.
Qed.

(** X17.  A source that opens, has a frame rate and delivers a frame, but
    reports a frame count of 0: with the progress callback of the
    job, the progress of the first analyzed frame divides by zero.
    The job fails after the tracks of this frame have been enriched,
    and writes no tracking file. *)
Theorem zero_frame_count_fails self w video_id video_path cap frame rest :
  video_files w !! video_path = Some cap →
  isOpened cap = true → frames cap = frame :: rest →
  ¬ (CAP_PROP_FPS cap == 0)%Q →
  Py.int (CAP_PROP_FRAME_COUNT cap) = 0 →
  detector_total self → search_total self →
  registered video_id w →
  ∃ w' logs,
    process_video_task self video_id video_path w = (Return (), w') ∧
    processing_status w' !! video_id
    = Some (Status.mk "failed" 0 "Processing failed: division by zero" logs) ∧
    tracking_files w' = tracking_files w.
Proof.
  intros Hcap Hopen Hframes Hfps Htotal Hdet Hsearch Hreg.
  destruct (job_run_registered self video_id video_path w Hreg)
    as (s1 & Hs1 & _).
  pose proof (task_unfold self video_id video_path w s1 Hreg Hs1) as Htask.
  assert (Hrun : wp (job_run self video_id video_path) w (λ _ _, False)
            (λ e w1, e = ZeroDivisionError "division by zero" ∧
                     job_frame video_id w w1)).
  { destruct Hreg as [s Hs]. eapply job_run_opened; [exact Hs|].
    intros w1 Hw1 _ Hs'. rewrite Hcap. simpl.
    unfold frames_read. rewrite Hopen, Hframes, Htotal.
    apply frame_loop_first_raises; [done|].
    eapply wp_mono;
      [apply wp_and;
       [apply analyze_frame_zero_total; [done | done | done | by eexists]
       |apply (analyze_frame_frame _ _ _ _ _ _ w); exact Hw1]
      | | ]; simpl; [tauto | done]. }
  unfold wp in Hrun.
  destruct (job_run self video_id video_path w) as [[a|e] w1];
    simpl in *; [done|].
  destruct Hrun as (-> & _ & _ & Htf & _).
  eexists _, _. split; [exact Htask|]. simpl.
  rewrite lookup_insert_eq. done.
Qed.

End FrameCount.

Lemma zero_frame_count_fails_witness :
  ∃ w' logs,
    process_video_task example_processor "v" (video_file "v" ".mp4")
      (example_started uncounted_capture) = (Return (), w') ∧
    processing_status w' !! "v"
    = Some (Status.mk "failed" 0 "Processing failed: division by zero" logs) ∧
    tracking_files w' = tracking_files (example_started uncounted_capture).
Proof.
  apply (zero_frame_count_fails example_processor
           (example_started uncounted_capture) "v" (video_file "v" ".mp4")
           uncounted_capture 0%nat (seq 1 19)).
  - reflexivity.
  - reflexivity.
  - reflexivity.
  - by intros H.
  - reflexivity.
  - intros h frame. by eexists.
  - intros h category top_k. by eexists.
  - by exists fresh_status.
Defined.

(** ** What the tracking file holds *)

Lemma assign_track_ids_labels (current : list Detection)
    (previous : list Tracked) (n : Z) :
  n ≤ (_assign_track_ids current previous n).2 ∧
  ∀ t, t ∈ (_assign_track_ids current previous n).1 →
       (∃ p, p ∈ previous ∧ track_id t = track_id p ∧
             label (det p) = label (det t))
       ∨ n ≤ track_id t < (_assign_track_ids current previous n).2.
Proof.
  rewrite assign_track_ids_match_loop.
  destruct (match_loop_run previous current ∅ n) as [m' Hrun].
  destruct (match_run_justified _ _ _ _ _ _ _ Hrun) as [Hle Hids].
  split; [done|]. intros t Ht.
  destruct (Hids t Ht) as [(p & ? & ? & ? & _)|?]; [left; by exists p | by right].
Qed.

Lemma match_run_fresh_all previous matched n ds ts matched' n' :
  match_run previous matched n ds ts matched' n' →
  ∀ k, n ≤ k < n' → ∃ t, t ∈ ts ∧ track_id t = k.
Proof.
  induction 1 as [|matched n d ds t m1 n1 ts m2 n2 Hstep Hrun IH];
    intros k Hk; [lia|].
  inversion Hstep as [? ? ? p Hfirst Hiou | ? ? ? Hall]; subst.
  - destruct (IH k Hk) as (t & Ht & Hid). exists t. split; [by right | done].
  - destruct (decide (k = n)) as [->|Hne].
    + eexists. split; [by left | done].
    + destruct (IH k ltac:(lia)) as (t & Ht & Hid).
      exists t. split; [by right | done].
Qed.

Lemma assign_track_ids_fresh_all (current : list Detection)
    (previous : list Tracked) (n : Z) :
  ∀ k, n ≤ k < (_assign_track_ids current previous n).2 →
       ∃ t, t ∈ (_assign_track_ids current previous n).1 ∧ track_id t = k.
Proof.
  rewrite assign_track_ids_match_loop.
  destruct (match_loop_run previous current ∅ n) as [m' Hrun].
  by eapply match_run_fresh_all.
Qed.

Lemma covered_weaken (op op' : gmap Z ProductInfo.t) fd :
  op ⊆ op' → covered op fd → covered op' fd.
Proof.
  intros Hsub (pi & Hpi & Hfor). exists pi. split; [|done].
  by eapply lookup_weaken.
Qed.

Section TrackingFile.

Context {Frame : Type}.
Implicit Types (w : World Frame) (self : VideoProcessor Frame).

Lemma wp_any {A} (m : M Frame A) w (Q : A → World Frame → Prop) E :
  (∀ a w', Q a w') → (∀ e w', E e w') → wp m w Q E.
Proof. intros HQ HE. unfold wp. by destruct (m w) as [[a|e] w']. Qed.

Lemma process_tracked_object_info self frame d t video_id ts w :
  wp (_process_tracked_object self frame d t video_id ts) w
    (λ pi _, product_info_for t (label (det d)) pi) (λ _ _, True).
Proof.
  unfold _process_tracked_object.
  apply wp_try, wp_bind, wp_invoke.
  destruct (segmentation_service self _ _ _ _ _) as [mask|e].
  - apply wp_bind, wp_invoke.
    destruct (product_search self _ _ _) as [ps|e].
    + apply wp_ret. split_and!; [done | done |]. left. by split.
    + apply wp_bind, wp_invoke.
      destruct (product_search self _ _ _) as [ps|e']; [|done].
      apply wp_ret. split_and!; [done | done |]. by right.
  - apply wp_bind, wp_invoke.
    destruct (product_search self _ _ _) as [ps|e']; [|done].
    apply wp_ret. split_and!; [done | done |]. by right.
Qed.

(** The loop over the detections of one frame: what it appends and
    what it adds to the index. *)
Lemma detection_loop_covers self video_id lc frame f fps :
  ∀ dets fds op w,
  NoDup (track_id <$> dets) →
  (∀ d, d ∈ dets →
     covered op (frame_detection_of d) ∨ op !! track_id d = None) →
  wp (detection_loop self video_id lc frame f fps dets fds op) w
    (λ r _,
       r.1 = fds ++ (frame_detection_of <$> dets) ∧
       op ⊆ r.2 ∧
       (∀ d, d ∈ dets → covered r.2 (frame_detection_of d)) ∧
       (∀ t pi, r.2 !! t = Some pi →
          op !! t = Some pi ∨
          (t ∈ track_id <$> dets ∧ ProductInfo.track_id pi = t)))
    (λ _ _, True).
Proof.
  induction dets as [|d dets IH]; intros fds op w Hnd Hdets.
  - apply wp_ret. simpl. rewrite app_nil_r.
    split_and!; [done | done | by intros d ?%elem_of_nil | by left].
  - rewrite fmap_cons in Hnd. apply NoDup_cons in Hnd as [Hd Hnd].
    cbn [detection_loop]. apply wp_bind.
    destruct (op !! track_id d) as [pi0|] eqn:Hop.
    + apply wp_ret.
      eapply wp_mono; [apply (IH _ op); [done|] | | done].
      { intros d' Hd'. apply Hdets. by right. }
      intros [fds' op'] w' (Hfds & Hsub & Hcov & Hkeys). simpl in *.
      split_and!.
      * by rewrite Hfds, <- app_assoc.
      * done.
      * intros d' [->|Hd']%elem_of_cons; [|by apply Hcov].
        destruct (Hdets d ltac:(by left)) as [Hc|Hn]; [|congruence].
        by eapply covered_weaken.
      * intros t pi Ht. destruct (Hkeys t pi Ht) as [?|[? ?]]; [by left|].
        right. split; [by right | done].
    + apply wp_bind, wp_lift.
      destruct (timestamp_ms f fps) as [ts|e]; [|done].
      apply wp_bind, wp_emit, wp_bind.
      eapply wp_mono; [apply process_tracked_object_info | | done].
      intros pi w1 Hpi. simpl. apply wp_bind.
      apply wp_any; [|done]. intros [] w2. apply wp_ret.
      eapply wp_mono;
        [apply (IH _ (<[track_id d := pi]> op)); [done|] | | done].
      { intros d' Hd'.
        assert (track_id d' ≠ track_id d) as Hne.
        { intros Heq. apply Hd. rewrite <- Heq. by apply list_elem_of_fmap_2. }
        destruct (Hdets d' ltac:(by right)) as [Hc|Hn].
        - left. eapply covered_weaken; [|exact Hc].
          by apply insert_subseteq.
        - right. by rewrite lookup_insert_ne. }
      intros [fds' op'] w' (Hfds & Hsub & Hcov & Hkeys). simpl in *.
      assert (op ⊆ op') as Hsub'.
      { etrans; [|exact Hsub]. by apply insert_subseteq. }
      split_and!.
      * by rewrite Hfds, <- app_assoc.
      * done.
      * intros d' [->|Hd']%elem_of_cons; [|by apply Hcov].
        exists pi. split; [|done].
        eapply lookup_weaken; [|exact Hsub]. by rewrite lookup_insert_eq.
      * intros t pi' Ht. destruct (Hkeys t pi' Ht) as [Hin|[? ?]].
        -- destruct (decide (t = track_id d)) as [->|Hne].
           ++ rewrite lookup_insert_eq in Hin. injection Hin as <-.
              right. split; [by left | by destruct Hpi].
           ++ rewrite lookup_insert_ne in Hin by done. by left.
        -- right. split; [by right | done].
Qed.

Lemma analyze_frame_locals self video_id pc lc fps total frame st w :
  locals_inv st →
  wp (analyze_frame self video_id pc lc fps total frame st) w
    (λ st' _, locals_inv st') (λ _ _, True).
Proof.
  intros (Hone & Htracks & Hprev & Hkeys & Hdense). unfold analyze_frame.
  apply wp_bind, wp_invoke.
  destruct (grounding_dino self (trace w) frame) as [ds|e]; [|done].
  assert (Hlt : ∀ p, p ∈ previous_detections st → track_id p < next_track_id st).
  { intros p Hp. destruct (Hprev p Hp) as (pi & Hpi & _).
    destruct (Hkeys _ _ Hpi) as [_ ?]. simpl in *. lia. }
  destruct (assign_track_ids_facts ds _ _ Hlt) as (_ & _ & Hnd & _).
  destruct (assign_track_ids_labels ds (previous_detections st)
              (next_track_id st)) as (Hle & Hids).
  pose proof (assign_track_ids_fresh_all ds (previous_detections st)
                (next_track_id st)) as Hall.
  destruct (_assign_track_ids _ _ _) as [dets n]. simpl in *.
  apply wp_bind, wp_emit, wp_bind.
  eapply wp_mono;
    [apply (detection_loop_covers _ _ _ _ _ _ dets [] (object_products st));
     [done|] | | done].
  { intros d Hd. destruct (Hids d Hd) as [(p & Hp & Hid & Hlab)|Hfresh].
    - left. destruct (Hprev p Hp) as (pi & Hpi & Hfor). simpl in *.
      exists pi. simpl. rewrite Hid, <- Hlab. by split.
    - right. destruct (object_products st !! track_id d) as [pi|] eqn:E;
        [|done].
      destruct (Hkeys _ _ E). lia. }
  intros [fds op] w1 (Hfds & Hsub & Hcov & Hnew). simpl in *. subst fds.
  apply wp_bind, wp_lift.
  destruct (timestamp_ms (frame_num st) fps) as [ts|e]; [|done].
  apply wp_bind. apply wp_any; [|done]. intros [] w2. apply wp_ret.
  split_and!; simpl.
  - lia.
  - intros ts' fds. destruct (decide (ts' = ts)) as [->|Hne].
    + rewrite lookup_insert_eq. intros [= <-]. split.
      * rewrite <- list_fmap_compose. exact Hnd.
      * intros fd (d & -> & Hd)%list_elem_of_fmap. by apply Hcov.
    + rewrite lookup_insert_ne by done. intros Hfd.
      destruct (Htracks _ _ Hfd) as [? Hc]. split; [done|].
      intros fd Hin. eapply covered_weaken; [exact Hsub | by apply Hc].
  - exact Hcov.
  - intros t pi Ht. destruct (Hnew t pi Ht) as [Hold|[Hin Hid]].
    + destruct (Hkeys _ _ Hold). split; [done | lia].
    + split; [done|].
      apply list_elem_of_fmap in Hin as (d & -> & Hd).
      destruct (Hids d Hd) as [(p & Hp & Hpid & _)|?]; [|lia].
      destruct (Hprev p Hp) as (pi' & Hpi' & _). simpl in Hpi'.
      destruct (Hkeys _ _ Hpi'). lia.
  - intros t Ht.
    destruct (decide (t < next_track_id st)) as [Hold|Hnew'].
    + destruct (Hdense t ltac:(lia)) as [pi Hpi]. exists pi.
      by eapply lookup_weaken.
    + destruct (Hall t ltac:(lia)) as (d & Hd & <-).
      destruct (Hcov d Hd) as (pi & Hpi & _). by exists pi.
Qed.

Lemma process_video_locals self video_id video_path pc lc w :
  wp (process_video self video_id video_path pc lc) w
    (λ a _, Artifact.video_id a = video_id ∧
            ∃ st, locals_inv st ∧
                  Artifact.tracks_by_frame a = tracks_by_frame st ∧
                  Artifact.object_products a = object_products st)
    (λ _ _, True).
Proof.
  unfold process_video.
  apply wp_bind, wp_any; [|done]. intros [] w1.
  apply wp_bind, wp_any; [|done]. intros [] w2.
  apply wp_bind. unfold cv2_VideoCapture at 1, wp at 1.
  apply wp_bind.
  eapply wp_mono;
    [apply (frame_loop_wp self video_id pc lc _ _
              (λ st _, locals_inv st) (λ _ _, True)) | | done].
  - done.
  - intros frame st w' Hst. by apply analyze_frame_locals.
  - split_and!; simpl; [done | | by intros p ?%elem_of_nil | |];
      [intros ? ?; by rewrite lookup_empty..|]. intros t Ht. lia.
  - intros st w3 Hst. simpl.
    apply wp_bind, wp_modify, wp_ret. split; [done|]. by exists st.
Qed.

(** X18.  In the tracking data of a run that returns, with any callbacks:
    the detections listed for a frame have pairwise distinct track
    ids; each of them has an entry in [object_products], stored under
    its track id, whose category is the class of the detection, and
    which carries a mask url exactly when its method is [owlvit_sam];
    and the keys of [object_products] are the ids, from 1 on, of the
    entries stored under them. *)
Theorem tracking_file_consistent self video_id video_path pc lc w a :
  (process_video self video_id video_path pc lc w).1 = Return a →
  Artifact.video_id a = video_id ∧
  (∀ ts fds, Artifact.tracks_by_frame a !! ts = Some fds →
     NoDup (FrameDetection.track_id <$> fds) ∧
     ∀ fd, fd ∈ fds →
       ∃ pi, Artifact.object_products a !! FrameDetection.track_id fd
             = Some pi ∧
             ProductInfo.category pi = FrameDetection.class fd ∧
             (ProductInfo.detection_method pi = "owlvit_sam" ∧
              is_Some (ProductInfo.mask_url pi) ∨
              ProductInfo.detection_method pi = "owlvit" ∧
              ProductInfo.mask_url pi = None)) ∧
  (∀ t pi, Artifact.object_products a !! t = Some pi →
     ProductInfo.track_id pi = t ∧ 1 ≤ t).
Proof.
  intros Ha.
  pose proof (wp_run _ _ _ _ (process_video_locals self video_id video_path
                                pc lc w)) as H.
  rewrite Ha in H.
  destruct H as (Hid & st & (_ & Htracks & _ & Hkeys & _) & -> & ->).
  split; [done|]. split.
  - intros ts fds Hfds. destruct (Htracks ts fds Hfds) as [Hnd Hcov].
    split; [done|]. intros fd Hfd.
    destruct (Hcov fd Hfd) as (pi & Hpi & _ & Hcat & Hshape).
    by exists pi.
  - intros t pi Hpi. destruct (Hkeys t pi Hpi). split; [done | lia].
Qed.

(** X19.  The track ids of a run that returns are 1, 2, ... without a gap:
    [object_products] has an entry under exactly the ids from 1 up to
    some bound. *)
Theorem track_ids_are_dense self video_id video_path pc lc w a :
  (process_video self video_id video_path pc lc w).1 = Return a →
  ∃ n, 1 ≤ n ∧
       ∀ t, is_Some (Artifact.object_products a !! t) ↔ 1 ≤ t < n.
Proof.
  intros Ha.
  pose proof (wp_run _ _ _ _ (process_video_locals self video_id video_path
                                pc lc w)) as H.
  rewrite Ha in H.
  destruct H as (_ & st & (Hone & _ & _ & Hkeys & Hdense) & _ & ->).
  exists (next_track_id st). split; [done|]. intros t. split.
  - intros [pi Hpi]. by destruct (Hkeys t pi Hpi).
  - apply Hdense.
Qed.

End TrackingFile.

Lemma tracking_file_consistent_witness :
  ∃ a, example_run.1 = Return a ∧ Artifact.video_id a = "v" ∧
       ∀ t pi, Artifact.object_products a !! t = Some pi →
               ProductInfo.track_id pi = t ∧ 1 ≤ t.
Proof.
  destruct example_run.1 as [a|e] eqn:E.
  - exists a.
    destruct (tracking_file_consistent example_processor "v"
                (video_file "v" ".mp4") (Some (update_progress "v"))
                (Some (log_message "v")) (example_started example_capture)
                a E) as (H1 & _ & H3).
    split; [reflexivity|]. split; [exact H1 | exact H3].
  - vm_compute in E. discriminate.
Defined.

Lemma track_ids_are_dense_witness :
  ∃ a n, example_run.1 = Return a ∧ 1 ≤ n ∧
         ∀ t, is_Some (Artifact.object_products a !! t) ↔ 1 ≤ t < n.
Proof.
  destruct example_run.1 as [a|e] eqn:E.
  - destruct (track_ids_are_dense example_processor "v"
                (video_file "v" ".mp4") (Some (update_progress "v"))
                (Some (log_message "v")) (example_started example_capture)
                a E) as (n & Hn & Hdense).
    exists a, n. split; [reflexivity|]. split; [exact Hn | exact Hdense].
  - vm_compute in E. discriminate.
Defined.

(** ** Timestamps of analyzed frames *)







(** ** The entries of the tracking file and the tracker outputs *)

Section Entries.

Context {Frame : Type}.
Implicit Types (w : World Frame) (self : VideoProcessor Frame).






End Entries.


(** ** The service, request after request *)




Section Service.

Context {Frame : Type}.
Implicit Types (w : World Frame) (self : VideoProcessor Frame).

Lemma start_processing_cases video_id w :
  (start_processing video_id w).2 = w ∨
  ∃ video_path,
    (start_processing video_id w).2
    = mkWorld (<[video_id := fresh_status]> (processing_status w))
        (tracking_files w) (video_files w)
        (background_tasks w ++ [(video_id, video_path)]) (trace w).
Proof.
  unfold start_processing, get, mbind, M_bind, mret, M_ret, raise.
  destruct (find_video _ _ _) as [path|]; [|by left].
  destruct (already_processing _ _); [by left|].
  right. by exists path.
Qed.

Lemma task_keeps_queue self video_id video_path w :
  registered video_id w →
  (process_video_task self video_id video_path w).1 = Return () ∧
  background_tasks (process_video_task self video_id video_path w).2
  = background_tasks w ∧
  tracking_files (process_video_task self video_id video_path w).2
  = match (job_run self video_id video_path w).1 with
    | Return a => <[tracking_path video_id := a]> (tracking_files w)
    | Raise _ => tracking_files w
    end ∧
  (∃ s', processing_status
           (process_video_task self video_id video_path w).2 !! video_id
         = Some s' ∧
         (Status.status s' = "completed" ∨ Status.status s' = "failed")) ∧
  ∀ other, registered other w →
    registered other (process_video_task self video_id video_path w).2.
Proof.
  intros Hreg.
  destruct (job_run_registered self video_id video_path w Hreg)
    as (s1 & Hs1 & _).
  rewrite (task_unfold _ _ _ _ _ Hreg Hs1).
  pose proof (job_run_frame self video_id video_path w Hreg) as H.
  unfold wp in H. unfold registered.
  destruct (job_run self video_id video_path w) as [[a|e] w1]; simpl in *.
  - destruct H as (_ & w2 & (_ & Hother & Htf & _ & Hbt) & ->). simpl in *.
    split_and!; [done | done | by rewrite Htf | |].
    + rewrite lookup_insert_eq. eexists. split; [done|]. by left.
    + intros other Ho. destruct (decide (other = video_id)) as [->|Hne].
      * by rewrite lookup_insert_eq.
      * rewrite lookup_insert_ne by done. by rewrite Hother.
  - destruct H as (_ & Hother & Htf & _ & Hbt).
    split_and!; [done | done | done | |].
    + rewrite lookup_insert_eq. eexists. split; [done|]. by right.
    + intros other Ho. destruct (decide (other = video_id)) as [->|Hne].
      * by rewrite lookup_insert_eq.
      * rewrite lookup_insert_ne by done. by rewrite Hother.
Qed.

Lemma api_step_queue_ok self w w' :
  api_step self w w' → queue_ok w → queue_ok w'.
Proof.
  intros Hstep Hok. destruct Hstep as [v w|v w|v w|v p w Hin].
  - destruct (start_processing_cases v w) as [->|[path ->]]; [done|].
    intros v' p'. simpl.
    intros [Hin|Hin%list_elem_of_singleton]%elem_of_app.
    + unfold registered. simpl.
      destruct (decide (v' = v)) as [->|Hne].
      * by rewrite lookup_insert_eq.
      * rewrite lookup_insert_ne by done. by apply (Hok v' p').
    + injection Hin as -> ->. unfold registered. simpl.
      by rewrite lookup_insert_eq.
  - unfold get_processing_status, get, mbind, M_bind, mret, M_ret, raise.
    destruct (processing_status w !! v); [done|].
    by destruct (tracking_files w !! tracking_path v).
  - unfold get_tracking_data, get, mbind, M_bind, mret, M_ret, raise.
    by destruct (tracking_files w !! tracking_path v).
  - destruct (task_keeps_queue self v p w (Hok v p Hin))
      as (_ & Hq & _ & _ & Hkeep).
    intros v' p'. rewrite Hq. intros Hin'. apply Hkeep. by apply (Hok v' p').
Qed.

Lemma reachable_queue_ok self w0 w :
  rtc (api_step self) w0 w → queue_ok w0 → queue_ok w.
Proof.
  induction 1 as [w|w1 w2 w3 Hstep _ IH]; [done|].
  intros Hq. apply IH. by eapply api_step_queue_ok.
Qed.

(** X22.  From a start with an empty task queue, after any sequence of
    requests and task runs, every queued task runs to the end: it
    finds the record of its video, does not raise, and leaves the
    record completed or failed. *)
Theorem queued_jobs_never_raise self w0 w video_id video_path :
  background_tasks w0 = [] →
  rtc (api_step self) w0 w →
  (video_id, video_path) ∈ background_tasks w →
  ∃ w' s',
    process_video_task self video_id video_path w = (Return (), w') ∧
    processing_status w' !! video_id = Some s' ∧
    (Status.status s' = "completed" ∨ Status.status s' = "failed").
Proof.
  intros Hnil Hreach Hin.
  assert (Hq0 : queue_ok w0).
  { intros v p. rewrite Hnil. by intros ?%elem_of_nil. }
  pose proof (reachable_queue_ok self w0 w Hreach Hq0 _ _ Hin) as Hreg.
  destruct (task_keeps_queue self video_id video_path w Hreg)
    as (Hret & _ & _ & (s' & Hs' & Hterm) & _).
  destruct (process_video_task self video_id video_path w) as [r w'] eqn:E.
  simpl in *. subst r. by exists w', s'.
Qed.


End Service.

Lemma queued_jobs_never_raise_witness :
  ∃ w' s',
    process_video_task example_processor "v" (video_file "v" ".mp4")
      (start_processing "v" (example_world example_capture)).2
    = (Return (), w') ∧
    processing_status w' !! "v" = Some s' ∧
    (Status.status s' = "completed" ∨ Status.status s' = "failed").
Proof.
  apply (queued_jobs_never_raise example_processor
           (example_world example_capture)).
  - reflexivity.
  - apply rtc_once, step_start.
  - apply (list_elem_of_lookup_2 _ 0). reflexivity.
Defined.


(** ** How often the collaborators are called *)

Lemma search_calls_app (T1 T2 : list Event) :
  search_calls (T1 ++ T2) = (search_calls T1 + search_calls T2)%nat.
Proof. unfold search_calls. by rewrite filter_app, length_app. Qed.

Lemma budget_ok_other (T : list Event) ev :
  is_EvSegment ev = false → is_EvSearch ev = false →
  enriched_at [ev] = [] →
  budget_ok T → budget_ok (T ++ [ev]).
Proof.
  intros Hseg Hsearch Henr [H1 H2]. unfold budget_ok.
  rewrite enriched_at_app, Henr, app_nil_r.
  rewrite segment_calls_app, search_calls_app.
  unfold segment_calls at 2, search_calls at 2 4.
  rewrite !filter_cons, !filter_nil.
  rewrite decide_False by (rewrite Hseg; done).
  rewrite decide_False by (rewrite Hsearch; done).
  simpl. lia.
Qed.

Lemma budget_ok_enrich (T evs : list Event) f t :
  segment_calls evs = 1%nat → (1 ≤ search_calls evs ≤ 2)%nat →
  enriched_at evs = [] →
  budget_ok T → budget_ok ((T ++ [EvEnrich f t]) ++ evs).
Proof.
  intros Hseg Hsearch Henr [H1 H2]. unfold budget_ok.
  rewrite !enriched_at_app, Henr, app_nil_r, length_app.
  rewrite !segment_calls_app, !search_calls_app, Hseg.
  unfold segment_calls at 2, search_calls at 2 5. simpl. lia.
Qed.

Lemma size_of_index (op : gmap Z ProductInfo.t) (l : list Z) :
  NoDup l → (∀ t, t ∈ l ↔ is_Some (op !! t)) → size op = length l.
Proof.
  intros Hnd Hiff.
  rewrite <- size_dom, <- (size_list_to_set (C := gset Z) l) by done.
  f_equal. apply set_eq. intros t.
  by rewrite elem_of_dom, elem_of_list_to_set, Hiff.
Qed.

Section Budget.

Context {Frame : Type}.
Implicit Types (w : World Frame) (self : VideoProcessor Frame).

(** One enrichment: one call of the segmenter, and one or two of the
    product search, whether it returns or raises. *)
Lemma process_tracked_object_calls self frame d t video_id ts w :
  ∃ evs,
    trace (_process_tracked_object self frame d t video_id ts w).2
    = trace w ++ evs ∧
    segment_calls evs = 1%nat ∧ (1 ≤ search_calls evs ≤ 2)%nat ∧
    enriched_at evs = [].
Proof.
  unfold _process_tracked_object, try_except, invoke, mbind, M_bind, mret, M_ret.
  destruct (segmentation_service self _ _ _ _ _) as [mask|e]; simpl.
  - destruct (product_search self _ _ _) as [ps|e]; simpl.
    + eexists [_; _]. split; [simpl; by rewrite <- app_assoc|].
      split_and!; [done | | | done]; unfold search_calls; simpl; lia.
    + destruct (product_search self _ _ _) as [ps|e']; simpl;
        (eexists [_; _; _]; split; [simpl; by rewrite <- !app_assoc|];
         split_and!; [done | | | done]; unfold search_calls; simpl; lia).
  - destruct (product_search self _ _ _) as [ps|e']; simpl;
      (eexists [_; _]; split; [simpl; by rewrite <- app_assoc|];
       split_and!; [done | | | done]; unfold search_calls; simpl; lia).
Qed.

Lemma detection_loop_budget self video_id lc frame f fps :
  silent lc → ∀ dets fds op w,
  budget_ok (trace w) →
  wp (detection_loop self video_id lc frame f fps dets fds op) w
    (λ _ w', budget_ok (trace w')) (λ _ w', budget_ok (trace w')).
Proof.
  intros Hlc. induction dets as [|d dets IH]; intros fds op w Hw.
  - by apply wp_ret.
  - cbn [detection_loop]. apply wp_bind. destruct (op !! track_id d).
    + apply wp_ret. by apply IH.
    + apply wp_bind, wp_lift.
      destruct (timestamp_ms f fps) as [ts|e]; [|done].
      apply wp_bind, wp_emit, wp_bind.
      destruct (process_tracked_object_calls self frame d (track_id d)
                  video_id ts
                  (set_trace (λ t, t ++ [EvEnrich f (track_id d)]) w))
        as (evs & Htr & Hseg & Hsearch & Henr).
      assert (Hw2 : budget_ok
                (trace (_process_tracked_object self frame d (track_id d)
                          video_id ts
                          (set_trace (λ t, t ++ [EvEnrich f (track_id d)]) w)).2)).
      { rewrite Htr. simpl. by apply budget_ok_enrich. }
      unfold wp at 1.
      destruct (_process_tracked_object _ _ _ _ _ _ _) as [[pi|e] w2];
        [|done].
      simpl in Hw2. apply wp_bind.
      eapply wp_mono; [by apply when_set_silent | |].
      * intros [] w3 Htr3. apply wp_ret. apply IH. by rewrite Htr3.
      * intros e w3 Htr3. simpl. by rewrite Htr3.
Qed.

Lemma analyze_frame_budget self video_id pc lc fps total frame st w :
  silent pc → silent lc → budget_ok (trace w) →
  wp (analyze_frame self video_id pc lc fps total frame st) w
    (λ _ w', budget_ok (trace w')) (λ _ w', budget_ok (trace w')).
Proof.
  intros Hpc Hlc Hw. unfold analyze_frame.
  apply wp_bind, wp_invoke.
  assert (Hw1 : budget_ok (trace w ++ [EvDetect (frame_num st)]))
    by by apply budget_ok_other.
  destruct (grounding_dino self (trace w) frame) as [ds|e]; [|done].
  destruct (_assign_track_ids _ _ _) as [dets n].
  apply wp_bind, wp_emit, wp_bind.
  eapply wp_mono; [apply detection_loop_budget; [done|] | | done].
  { simpl. by apply budget_ok_other. }
  intros [fds op] w2 Hw2. simpl.
  apply wp_bind, wp_lift.
  destruct (timestamp_ms (frame_num st) fps) as [ts|e]; [|done].
  apply wp_bind.
  destruct pc as [cb|]; [|by apply wp_ret, wp_ret].
  apply wp_bind, wp_lift.
  destruct (progress_percent (frame_num st) total) as [p|e]; [|done].
  match goal with |- wp (cb ?args) _ _ _ =>
    specialize (Hpc cb eq_refl args w2) end.
  unfold wp at 1. destruct (cb _ w2) as [[[]|e] w3]; simpl in *.
  - apply wp_ret. by rewrite Hpc.
  - by rewrite Hpc.
Qed.

(** X24.  In a run started on an empty trace, with callbacks that call no
    collaborator, and whatever its outcome: the segmenter has been
    called once for each enrichment, and the product search once or
    twice.  When the run returns, the enrichments are as many as the
    entries of [object_products]: one segmenter call for each track of
    the tracking data. *)
Theorem call_budget self video_id video_path pc lc w :
  silent pc → silent lc → trace w = [] →
  budget_ok (trace (process_video self video_id video_path pc lc w).2) ∧
  ∀ a, (process_video self video_id video_path pc lc w).1 = Return a →
       segment_calls (trace (process_video self video_id video_path pc lc w).2)
       = size (Artifact.object_products a).
Proof.
  intros Hpc Hlc Hnil.
  assert (Hinit : ∀ w', trace w' = [] → budget_ok (trace w')).
  { intros w' ->. split; [done|]. unfold search_calls. simpl. lia. }
  assert (Hinv : ∀ w', trace w' = [] → frame_inv ∅ w').
  { intros w' Hw'. unfold frame_inv, enrich_ok, indexed, all_indexed.
    rewrite Hw'. simpl. split_and!.
    - constructor.
    - by intros f t ?%elem_of_nil.
    - intros t. rewrite lookup_empty.
      split; [by intros ?%elem_of_nil | by intros []].
    - by intros t []. }
  assert (Hwp : wp (process_video self video_id video_path pc lc) w
            (λ a w', budget_ok (trace w') ∧
                     segment_calls (trace w')
                     = size (Artifact.object_products a))
            (λ _ w', budget_ok (trace w'))).
  { unfold process_video. apply wp_bind.
    eapply wp_mono; [by apply when_set_silent | |
                     intros e w1 Htr; apply Hinit; congruence].
    intros [] w1 Htr1. simpl. apply wp_bind.
    eapply wp_mono; [by apply when_set_silent | |
                     intros e w2 Htr; apply Hinit; congruence].
    intros [] w2 Htr2. simpl. apply wp_bind.
    unfold cv2_VideoCapture at 1, wp at 1. apply wp_bind.
    eapply wp_mono;
      [apply wp_and;
       [apply (frame_loop_wp self video_id pc lc _ _
                 (λ _ w', budget_ok (trace w'))
                 (λ _ w', budget_ok (trace w')))
       |apply frame_loop_enrich; [exact Hpc | exact Hlc |]]
      | | ].
    - done.
    - intros frame st w' Hw'. by apply analyze_frame_budget.
    - apply Hinit. congruence.
    - apply Hinv. congruence.
    - intros st w3 [Hb ((Hnd & _) & Hidx & _)]. simpl.
      apply wp_bind, wp_modify, wp_ret. simpl. split; [done|].
      destruct Hb as [-> _].
      rewrite (size_of_index _ _ Hnd Hidx). by rewrite length_fmap.
    - by intros e w3 [Hb _]. }
  apply wp_run in Hwp.
  destruct (process_video self video_id video_path pc lc w) as [[a|e] w'];
    simpl in *.
  - destruct Hwp as [Hb Hsize]. split; [done|]. by intros a' [= <-].
  - split; [done|]. by intros a' [=].
Qed.

End Budget.

Lemma call_budget_witness :
  budget_ok (trace example_run.2) ∧
  segment_calls (trace example_run.2) = 1%nat.
Proof.
  destruct (call_budget example_processor "v" (video_file "v" ".mp4")
              (Some (update_progress "v")) (Some (log_message "v"))
              (example_started example_capture)) as [Hb Hsize].
  - apply job_callbacks_silent.
  - apply job_callbacks_silent.
  - reflexivity.
  - split; [exact Hb|]. by vm_compute.
Defined.
